(** * dji-way: coverage route planning engine

    A shallow embedding of [src/utils/polygonRouteGenerator.js] (all of
    it but the camera presets table) and of
    [src/utils/coordTransform.js].

    JavaScript numbers are IEEE-754 binary64 values; they are modelled by
    Rocq's primitive [float], whose operations are the same correctly
    rounded binary64 operations.  The built-ins that the sources call
    ([Math.ceil], [Math.min], [Math.max], [Number.prototype.toFixed],
    [Number(string)], [Array.prototype.sort]) are written out in
    [Module Js] from their ECMAScript definitions.  What ECMAScript
    leaves to the implementation is a parameter of the development
    ([Js.MathHost]): the results of [Math.cos] and [Math.sin], and the
    order in which [sort] leaves an array whose comparator is not
    consistent (here: numbers with a NaN among them).

    The planar geometry kernel is written once over an arithmetic
    interface ([Arith]) and is instantiated at binary64 (the program as
    it runs) and at the real numbers (the idealisation the specification
    argues in).

    The definitions come first ([Js], the data model, the two source
    files, [Spec] and [Reference] for what the loops are compared
    with); the facts follow, the statistics, the projection, the
    transform, the optimizer and the generator first, then the
    validation, the scan, degenerate spacings, the bounding box and
    the sort. *)

From Stdlib Require Import ZArith List String Ascii Bool Lia Floats.
From Stdlib Require Import DecimalString DecimalN.
From Stdlib Require Import Reals Lra.
From Stdlib Require Import Permutation Sorted.
Import ListNotations.

Set Warnings "-inexact-float".
Local Open Scope Z_scope.

(* ================================================================== *)
(** * Control: completions of a JavaScript function body               *)
(* ================================================================== *)

(** A function body either returns a value, throws a [TypeError]
    (property access on [undefined]), or is still running when the
    iteration budget given to an unbounded [while] loop is used up. *)
Inductive Outcome (A : Type) : Type :=
| Return (a : A)
| TypeError
| OutOfFuel.
Arguments Return {A} a.
Arguments TypeError {A}.
Arguments OutOfFuel {A}.

Definition bind {A B} (c : Outcome A) (k : A -> Outcome B) : Outcome B :=
  match c with
  | Return a => k a
  | TypeError => TypeError
  | OutOfFuel => OutOfFuel
  end.

Declare Scope js_scope.
Delimit Scope js_scope with js.
Notation "x <- c ;; k" := (bind c (fun x => k))
  (at level 61, c at next level, right associativity) : js_scope.

(** [arr[i]]: an element, or [undefined]. *)
Definition at_index {A} (arr : list A) (i : nat) : option A := nth_error arr i.

(** [arr[i].field]: reading a property of [undefined] throws. *)
Definition elem {A} (arr : list A) (i : nat) : Outcome A :=
  match at_index arr i with
  | Some a => Return a
  | None => TypeError
  end.

(** [for (let i = lo; i < lo + n; i++) body], threading the variables
    the body assigns as a state [s]. *)
Fixpoint for_range {S : Type} (lo n : nat) (body : nat -> S -> Outcome S)
  (s : S) : Outcome S :=
  match n with
  | O => Return s
  | Datatypes.S n' => bind (body lo s) (for_range (Datatypes.S lo) n' body)
  end.

(** The same loop when its body can [return v] from the enclosing
    function: [inr v] leaves the loop with that value, [inl s] goes on
    to the next round. *)
Fixpoint for_range_ret {S R : Type} (lo n : nat)
  (body : nat -> S -> Outcome (S + R)) (s : S) : Outcome (S + R) :=
  match n with
  | O => Return (inl s)
  | Datatypes.S n' =>
      bind (body lo s)
        (fun step =>
           match step with
           | inl s' => for_range_ret (Datatypes.S lo) n' body s'
           | inr v => Return (inr v)
           end)
  end.

(** [arr.push(x)] on the array held in a local variable. *)
Definition push {A} (arr : list A) (x : A) : list A := arr ++ [x].

(** [arr.map((p, index) => f(p, index))]. *)
Fixpoint map_from {A B} (i : nat) (f : A -> nat -> B) (arr : list A) : list B :=
  match arr with
  | [] => []
  | a :: rest => f a i :: map_from (Datatypes.S i) f rest
  end.
Definition map_indexed {A B} (f : A -> nat -> B) (arr : list A) : list B :=
  map_from 0 f arr.

(* ================================================================== *)
(** * The Number and Math built-ins used by the sources                *)
(* ================================================================== *)

Module Js.

(** An exact decoding of a finite binary64 value: [(-1)^s * m * 2^e]. *)
Definition decode (x : float) : spec_float := Prim2SF x.

(** The binary64 value nearest to an integer (ties to even). *)
Definition float_of_Z (z : Z) : float :=
  SF2Prim (binary_normalize prec emax z 0 false).

(** The binary64 value nearest to the rational [num / den], [den > 0]
    (ties to even).  The quotient is taken with at least 55 significant
    bits and a sticky bit for the remainder, then rounded once. *)
Definition float_of_ratio (num den : Z) : float :=
  if num =? 0 then 0%float
  else
    let k := Z.max 0 (55 + Z.log2 den - Z.log2 (Z.abs num)) in
    let scaled := Z.abs num * 2 ^ k in
    let q := scaled / den in
    let sticky := if scaled mod den =? 0 then 0 else 1 in
    let r := SF2Prim (binary_normalize prec emax (2 * q + sticky) (- k - 1) false) in
    if num <? 0 then (- r)%float else r.

(** [Math.PI]: the binary64 value nearest to pi. *)
Definition Math_PI : float := 0x1.921fb54442d18p+1%float.

Definition Math_abs (x : float) : float := PrimFloat.abs x.
Definition Math_sqrt (x : float) : float := PrimFloat.sqrt x.

(** [Math.min(a, b)]: NaN if either argument is NaN, and -0 is smaller
    than +0. *)
Definition Math_min (a b : float) : float :=
  if is_nan a || is_nan b then nan
  else if (a <? b)%float then a
  else if (b <? a)%float then b
  else if get_sign a then a else b.

(** [Math.max(a, b)]: NaN if either argument is NaN, and +0 is larger
    than -0. *)
Definition Math_max (a b : float) : float :=
  if is_nan a || is_nan b then nan
  else if (a <? b)%float then b
  else if (b <? a)%float then a
  else if get_sign a then b else a.

(** [Math.ceil(x)]: the smallest integral value not below [x]; NaN,
    the infinities and the zeros are returned as they are, and a
    value in (-1, 0) gives -0. *)
Definition Math_ceil (x : float) : float :=
  match decode x with
  | S754_finite s m e =>
      if 0 <=? e then x
      else
        let q := Zpos m / 2 ^ (- e) in
        let exact := Zpos m mod 2 ^ (- e) =? 0 in
        if s then (if q =? 0 then neg_zero else (- float_of_Z q)%float)
        else float_of_Z (if exact then q else q + 1)
  | _ => x
  end.

(** ToBoolean on a Number: false for +0, -0 and NaN. *)
Definition truthy (x : float) : bool := negb (is_zero x || is_nan x).

(** What ECMAScript leaves to the implementation, and the host that
    runs the program supplies: the results of [Math.cos] and
    [Math.sin], and the order in which [Array.prototype.sort] leaves
    an array when its comparator is not consistent, of which only
    this much is fixed: the elements are the same. *)
Class MathHost : Type := {
  Math_cos : float -> float;
  Math_sin : float -> float;
  Array_sort_inconsistent : forall A : Type, (A -> A -> float) -> list A -> list A;
  Array_sort_permutes :
    forall (A : Type) (compare : A -> A -> float) (arr : list A),
      Permutation arr (Array_sort_inconsistent A compare arr)
}.

(** ** Array.prototype.sort *)

(** SortCompare: how the sort reads what the comparator returns, a NaN
    counting as +0. *)
Definition sortCompare {A} (compare : A -> A -> float) (a b : A) : comparison :=
  let v := compare a b in
  if (v <? 0)%float then Lt
  else if (0 <? v)%float then Gt
  else Eq.

Definition same (c d : comparison) : bool :=
  match c, d with
  | Lt, Lt | Eq, Eq | Gt, Gt => true
  | _, _ => false
  end.

(** A consistent comparator for a set of values: for all [a], [b] and
    [c] among them, [a = a]; [a = b] gives [b = a]; and [=], [<] and
    [>] are transitive. *)
Definition consistent_at {A} (compare : A -> A -> float) (a b c : A) : bool :=
  let cmp := sortCompare compare in
  same (cmp a a) Eq
  && implb (same (cmp a b) Eq) (same (cmp b a) Eq)
  && implb (same (cmp a b) Eq && same (cmp b c) Eq) (same (cmp a c) Eq)
  && implb (same (cmp a b) Lt && same (cmp b c) Lt) (same (cmp a c) Lt)
  && implb (same (cmp a b) Gt && same (cmp b c) Gt) (same (cmp a c) Gt).

Definition consistent {A} (compare : A -> A -> float) (values : list A) : bool :=
  forallb (fun a =>
    forallb (fun b =>
      forallb (fun c => consistent_at compare a b c) values) values) values.

(** A stable sort by insertion: [a] stays before [b] unless
    [compare(a, b) > 0]. *)
Fixpoint sort_insert {A} (compare : A -> A -> float) (a : A) (sorted : list A) : list A :=
  match sorted with
  | [] => [a]
  | b :: rest =>
      if (0 <? compare a b)%float then b :: sort_insert compare a rest
      else a :: sorted
  end.

(** [arr.sort(compare)].  With a consistent comparator the result is
    fixed by ECMAScript: the elements in ascending order, those that
    compare equal in the order they had (the sort is stable).  With
    any other comparator the order is the implementation's. *)
Definition sort `{MathHost} {A} (compare : A -> A -> float) (arr : list A) : list A :=
  if consistent compare arr then fold_right (sort_insert compare) [] arr
  else Array_sort_inconsistent A compare arr.

(** ** Number.prototype.toFixed *)

(** The decimal digits of a non-negative integer, ["0"] for zero. *)
Definition digits (n : Z) : string :=
  NilZero.string_of_uint (N.to_uint (Z.to_N n)).

Fixpoint zeros (k : nat) : string :=
  match k with
  | O => EmptyString
  | S k' => String "0"%char (zeros k')
  end.

(** The first [j] characters of a string, and the others. *)
Fixpoint splitAt (j : nat) (s : string) : string * string :=
  match j, s with
  | S j', String c rest =>
      let '(a, b) := splitAt j' rest in (String c a, b)
  | _, _ => (EmptyString, s)
  end.

(** Steps 11.c-d of toFixed: [n] printed with [f] digits after the
    decimal point, padded on the left so that one digit precedes it. *)
Definition fixed_point (n : Z) (f : nat) : string :=
  let m := digits n in
  match f with
  | O => m
  | _ =>
      let m := if (String.length m <=? f)%nat
               then (zeros (f + 1 - String.length m) ++ m)%string else m in
      let k := String.length m in
      let '(a, b) := splitAt (k - f) m in
      (a ++ "." ++ b)%string
  end.

(** Number::toString for an integral value [X >= 10^21], which has
    [n] digits: the digits [s] (there are [k] of them, as few as
    possible) and the exponent [n'] such that [s * 10^(n'-k)] rounds to
    the same binary64 value, printed in exponent form.  ECMAScript
    leaves the choice among several such [s] open and recommends the
    one closest to [X] (the even one on a tie), which is what engines
    print and what is modelled here.

    With [k] digits the two candidates nearest to [X] are [X] cut to
    its first [k] digits, and that plus one.  The second one can be
    [10^k] (every digit kept was a 9): it stands for the value [10^n],
    whose digit string is [1] followed by zeros and whose exponent is
    [n + 1]. *)
Definition roundtrips (X c p : Z) : bool :=
  (float_of_Z (c * p) =? float_of_Z X)%float.

Definition closest (X p : Z) (a b : Z) : Z :=
  let da := Z.abs (a * p - X) in
  let db := Z.abs (b * p - X) in
  if da <? db then a
  else if db <? da then b
  else if Z.even a then a else b.

Definition carried (s : Z) (k : nat) (n : Z) : Z * nat * Z :=
  if s =? 10 ^ Z.of_nat k then (10 ^ (Z.of_nat k - 1), k, n + 1) else (s, k, n).

Fixpoint shortest (X n : Z) (k : nat) (tries : nat) : Z * nat * Z :=
  match tries with
  | O => (X, Z.to_nat n, n)
  | S tries' =>
      let p := 10 ^ (n - Z.of_nat k) in
      let lo := X / p in
      let hi := lo + 1 in
      let ok_lo := roundtrips X lo p in
      let ok_hi := roundtrips X hi p in
      if ok_lo && ok_hi then carried (closest X p lo hi) k n
      else if ok_lo then (lo, k, n)
      else if ok_hi then carried hi k n
      else shortest X n (S k) tries'
  end.

Definition toString_large (X : Z) : string :=
  let '(s, k, n) := shortest X (Z.of_nat (String.length (digits X))) 1 17 in
  let d := digits s in
  let mantissa :=
    match k with
    | 1%nat => d
    | _ => let '(a, b) := splitAt 1 d in (a ++ "." ++ b)%string
    end in
  (mantissa ++ "e+" ++ digits (n - 1))%string.

(** [x.toFixed(f)] for [0 <= f <= 100].  A non-finite [x] prints as
    Number::toString does; otherwise the sign is split off, a magnitude
    of at least [10^21] prints as Number::toString does, and any other
    magnitude is printed as the integer [n] nearest to [x * 10^f]
    (the larger one on a tie) with [f] digits after the point. *)
Definition toFixed (x : float) (f : nat) : string :=
  match decode x with
  | S754_nan => "NaN"
  | S754_infinity s => if s then "-Infinity" else "Infinity"
  | S754_zero _ => fixed_point 0 f
  | S754_finite s m e =>
      let num := Zpos m * 2 ^ Z.max e 0 in
      let den := 2 ^ Z.max (- e) 0 in
      let sign := if s then "-"%string else EmptyString in
      if 10 ^ 21 * den <=? num then (sign ++ toString_large (num / den))%string
      else
        let n := (2 * num * 10 ^ Z.of_nat f + den) / (2 * den) in
        (sign ++ fixed_point n f)%string
  end.

(** ** Number(string) *)

Definition is_digit (c : ascii) : bool :=
  ((48 <=? nat_of_ascii c) && (nat_of_ascii c <=? 57))%nat.

Fixpoint span_digits (s : string) : string * string :=
  match s with
  | String c rest =>
      if is_digit c
      then let '(ds, tail) := span_digits rest in (String c ds, tail)
      else (EmptyString, s)
  | EmptyString => (EmptyString, EmptyString)
  end.

Fixpoint digits_value (acc : Z) (s : string) : Z :=
  match s with
  | String c rest => digits_value (10 * acc + (Z.of_nat (nat_of_ascii c) - 48)) rest
  | EmptyString => acc
  end.

Definition is_empty (s : string) : bool :=
  match s with EmptyString => true | _ => false end.

(** ExponentPart after its indicator: an optional sign and at least one
    digit, up to the end of the string. *)
Definition parse_exponent (s : string) : option Z :=
  let '(neg, rest) :=
    match s with
    | String "+"%char r => (false, r)
    | String "-"%char r => (true, r)
    | _ => (false, s)
    end in
  let '(ds, tail) := span_digits rest in
  if is_empty ds || negb (is_empty tail) then None
  else Some (if neg then - digits_value 0 ds else digits_value 0 ds).

(** StrUnsignedDecimalLiteral without [Infinity]: digits, an optional
    fraction and an optional exponent, read as [(D, E)] with value
    [D * 10^E]. *)
Definition parse_unsigned (s : string) : option (Z * Z) :=
  let '(ip, r1) := span_digits s in
  let '(fp, r2) :=
    match r1 with
    | String "."%char r => span_digits r
    | _ => (EmptyString, r1)
    end in
  if is_empty ip && is_empty fp then None
  else
    let ex :=
      match r2 with
      | EmptyString => Some 0
      | String c r3 => if (c =? "e")%char || (c =? "E")%char
                       then parse_exponent r3 else None
      end in
    match ex with
    | Some e => Some (digits_value 0 (ip ++ fp), e - Z.of_nat (String.length fp))
    | None => None
    end.

(** The binary64 value nearest to [D * 10^E]. *)
Definition float_of_decimal (D E : Z) : float :=
  if 0 <=? E then float_of_Z (D * 10 ^ E)
  else float_of_ratio D (10 ^ (- E)).

(** [Number(s)] on the StrDecimalLiteral production of StringToNumber
    (a sign, then [Infinity] or an unsigned decimal literal), which is
    the only shape of string the sources pass to it: the results of
    toFixed.  The empty string is 0 and anything unparsable is NaN. *)
Definition Number (s : string) : float :=
  if is_empty s then 0%float
  else
    let '(neg, body) :=
      match s with
      | String "+"%char r => (false, r)
      | String "-"%char r => (true, r)
      | _ => (false, s)
      end in
    let magnitude :=
      if (body =? "Infinity")%string then Some infinity
      else match parse_unsigned body with
           | Some (D, E) => Some (float_of_decimal D E)
           | None => None
           end in
    match magnitude with
    | Some v => if neg then (- v)%float else v
    | None => nan
    end.

End Js.

(* ================================================================== *)
(** * Data model                                                       *)
(* ================================================================== *)

(** The arithmetic the planar geometry kernel is written in. *)
Class Arith (N : Type) : Type := {
  a_int : Z -> N;            (* an integer literal, or an array length *)
  a_pi : N;                  (* Math.PI *)
  a_add : N -> N -> N;
  a_sub : N -> N -> N;
  a_mul : N -> N -> N;
  a_div : N -> N -> N
}.

(** The trigonometric functions over that arithmetic. *)
Class Trig (N : Type) : Type := {
  a_cos : N -> N;            (* Math.cos *)
  a_sin : N -> N             (* Math.sin *)
}.

Declare Scope arith_scope.
Delimit Scope arith_scope with A.
Notation "a + b" := (a_add a b) : arith_scope.
Notation "a - b" := (a_sub a b) : arith_scope.
Notation "a * b" := (a_mul a b) : arith_scope.
Notation "a / b" := (a_div a b) : arith_scope.

(** Binary64, as the program runs. *)
#[export] Instance float_Arith : Arith float := {
  a_int := Js.float_of_Z;
  a_pi := Js.Math_PI;
  a_add := PrimFloat.add;
  a_sub := PrimFloat.sub;
  a_mul := PrimFloat.mul;
  a_div := PrimFloat.div
}.

#[export] Instance float_Trig `{Js.MathHost} : Trig float := {
  a_cos := Js.Math_cos;
  a_sin := Js.Math_sin
}.

(** The real numbers, as the specification idealises. *)
#[export] Instance R_Arith : Arith R := {
  a_int := IZR;
  a_pi := PI;
  a_add := Rplus;
  a_sub := Rminus;
  a_mul := Rmult;
  a_div := Rdiv
}.

#[export] Instance R_Trig : Trig R := {
  a_cos := cos;
  a_sin := sin
}.

(** [{ lat, lng }], in decimal degrees. *)
Record GeoPoint (N : Type) : Type := { lat : N; lng : N }.
Arguments lat {N} _.
Arguments lng {N} _.

(** [{ x, y }], in metres on the local tangent plane. *)
Record PlanarPoint (N : Type) : Type := { px : N; py : N }.
Arguments px {N} _.
Arguments py {N} _.

(** A flight waypoint: a position with the optional properties
    [height], [speed] and [index]. *)
Record Waypoint : Type := {
  wlat : float;
  wlng : float;
  height : option float;
  speed : option float;
  index : option nat
}.

(** Camera intrinsics. *)
Record CameraModel : Type := {
  sensorWidth : float;
  sensorHeight : float;
  focalLength : float;
  imageWidth : float;
  imageHeight : float
}.

(** The [options] object of [generatePolygonRoute]; [None] is a
    property that is not set ([undefined]). *)
Record RouteOptions : Type := {
  opt_spacing : option float;
  opt_angle : option float;
  opt_margin : option float;
  opt_height : option float;
  opt_speed : option float;
  opt_overlapRate : option float;
  opt_camera : option CameraModel;
  opt_useCamera : option bool;
  opt_optimizePath : option bool
}.

(** A destructuring default: [const { field = d } = options]. *)
Definition default {A} (d : A) (field : option A) : A :=
  match field with
  | Some v => v
  | None => d
  end.

(* ================================================================== *)
(** * Planar geometry kernel (polygonRouteGenerator.js, lines 66-129)  *)
(* ================================================================== *)

Section Kernel.
Context {N : Type} `{Arith N} `{Trig N}.
Local Open Scope arith_scope.

(** Earth radius in metres. *)
Definition EARTH_RADIUS : N := a_int 6378137.

Definition projectToMeters (lat_ lng_ : N) (origin : GeoPoint N) : PlanarPoint N :=
  let dLat := (lat_ - lat origin) * a_pi / a_int 180 in
  let dLng := (lng_ - lng origin) * a_pi / a_int 180 in
  let x := dLng * EARTH_RADIUS * a_cos (lat origin * a_pi / a_int 180) in
  let y := dLat * EARTH_RADIUS in
  {| px := x; py := y |}.

Definition unprojectFromMeters (x y : N) (origin : GeoPoint N) : GeoPoint N :=
  let dLat := y / EARTH_RADIUS in
  let lat_ := lat origin + dLat * a_int 180 / a_pi in
  let dLng := x / (EARTH_RADIUS * a_cos (lat origin * a_pi / a_int 180)) in
  let lng_ := lng origin + dLng * a_int 180 / a_pi in
  {| lat := lat_; lng := lng_ |}.

(** [center] defaults to [{ x: 0, y: 0 }] when it is not passed. *)
Definition rotatePoint (point : PlanarPoint N) (angleRad : N)
  (center : option (PlanarPoint N)) : PlanarPoint N :=
  let center := default {| px := a_int 0; py := a_int 0 |} center in
  let cos_ := a_cos angleRad in
  let sin_ := a_sin angleRad in
  let dx := px point - px center in
  let dy := py point - py center in
  {| px := px center + dx * cos_ - dy * sin_;
     py := py center + dx * sin_ + dy * cos_ |}.

Definition getPolygonCenter (polygon : list (PlanarPoint N)) : PlanarPoint N :=
  let '(sumX, sumY) :=
    fold_left (fun '(sumX, sumY) p => (sumX + px p, sumY + py p))
      polygon (a_int 0, a_int 0) in
  {| px := sumX / a_int (Z.of_nat (List.length polygon));
     py := sumY / a_int (Z.of_nat (List.length polygon)) |}.

End Kernel.

(* ================================================================== *)
(** * polygonRouteGenerator.js                                         *)
(* ================================================================== *)

Module Route.
Import Js.
Local Open Scope float_scope.
Local Open Scope js_scope.

Abbreviation Planar := (PlanarPoint float).
Abbreviation Geo := (GeoPoint float).

(** The axis-aligned extent [{ minX, minY, maxX, maxY }]. *)
Record BoundingBox : Type := {
  minX : float;
  minY : float;
  maxX : float;
  maxY : float
}.

(** [direction] defaults to ['lateral'] when it is not passed. *)
Definition calculateSpacing (height_ : float) (camera : CameraModel)
  (overlapRate : float) (direction : option string) : float :=
  let direction := default "lateral"%string direction in
  let sensor := if (direction =? "lateral")%string
                then sensorWidth camera else sensorHeight camera in
  let imageSize := if (direction =? "lateral")%string
                   then imageWidth camera else imageHeight camera in
  let gsd := (height_ * sensor) / (focalLength camera * imageSize) in
  let coverageWidth := gsd * imageSize in
  coverageWidth * (1 - overlapRate).

Definition getBoundingBox (polygon : list Planar) : BoundingBox :=
  fold_left
    (fun box p =>
       {| minX := Math_min (minX box) (px p);
          minY := Math_min (minY box) (py p);
          maxX := Math_max (maxX box) (px p);
          maxY := Math_max (maxY box) (py p) |})
    polygon
    {| minX := infinity; minY := infinity;
       maxX := neg_infinity; maxY := neg_infinity |}.

Section WithHost.
Context `{MathHost}.

Definition shrinkPolygon (polygon : list Planar) (marginMeters : float) : list Planar :=
  let center := getPolygonCenter polygon in
  let distances :=
    map (fun p =>
           let dx := px p - px center in
           let dy := py p - py center in
           Math_sqrt (dx * dx + dy * dy))
        polygon in
  let avgDistance :=
    fold_left (fun a b => a + b) distances 0
    / float_of_Z (Z.of_nat (List.length distances)) in
  let scale := Math_max 0.1 ((avgDistance - marginMeters) / avgDistance) in
  map (fun p =>
         {| px := px center + (px p - px center) * scale;
            py := py center + (py p - py center) * scale |})
      polygon.

(** Lines 317-332: the body of the optimizer's loop, which reads
    [waypoints[i - 1]], [waypoints[i]] and [waypoints[i + 1]] from the
    input array. *)
Definition keepIfTurning (waypoints : list Planar) (i : nat) (optimized : list Planar)
  : Outcome (list Planar) :=
  prev <- elem waypoints (i - 1) ;;
  curr <- elem waypoints i ;;
  next <- elem waypoints (i + 1) ;;
  let dx1 := px curr - px prev in
  let dy1 := py curr - py prev in
  let dx2 := px next - px curr in
  let dy2 := py next - py curr in
  let crossProduct := Math_abs (dx1 * dy2 - dy1 * dx2) in
  if 0.01 <? crossProduct then Return (push optimized curr)
  else Return optimized.

(** Lines 311-337.  With more than two waypoints, [waypoints[0]] and
    [waypoints[waypoints.length - 1]] are in range. *)
Definition optimizeRoutePath (waypoints : list Planar) : Outcome (list Planar) :=
  if (List.length waypoints <=? 2)%nat then Return waypoints
  else
    first <- elem waypoints 0 ;;
    optimized <-
      for_range 1 (List.length waypoints - 2) (keepIfTurning waypoints) [first] ;;
    last <- elem waypoints (List.length waypoints - 1) ;;
    Return (push optimized last).

(** Lines 241-253: the X coordinates at which the polygon's edges
    cross the scan line [currentY]. *)
Definition findIntersections (rotatedPolygon : list Planar) (currentY : float)
  : Outcome (list float) :=
  for_range 0 (List.length rotatedPolygon)
    (fun i intersections =>
       let j := ((i + 1) mod List.length rotatedPolygon)%nat in
       p1 <- elem rotatedPolygon i ;;
       p2 <- elem rotatedPolygon j ;;
       if ((py p1 <=? currentY) && (currentY <? py p2))
          || ((currentY <? py p1) && (py p2 <=? currentY))
       then
         let t := (currentY - py p1) / (py p2 - py p1) in
         let x := px p1 + t * (px p2 - px p1) in
         Return (push intersections x)
       else Return intersections)
    [].

(** Lines 260-274: [for (let k = 0; k < intersections.length; k += 2)],
    leaving the loop at an unpaired last intersection.  [iterations]
    bounds the number of rounds; both reads are in range by the loop
    condition and the [break] (an out-of-range read would give
    [undefined], which the arithmetic downstream turns into NaN). *)
Fixpoint emitPairs (iterations k : nat) (intersections : list float)
  (isLeftToRight : bool) (currentY : float) (waypoints : list Planar)
  : list Planar :=
  match iterations with
  | O => waypoints
  | S iterations' =>
      if (k <? List.length intersections)%nat then
        if (List.length intersections <=? k + 1)%nat then waypoints
        else
          let x1 := nth k intersections nan in
          let x2 := nth (k + 1) intersections nan in
          let waypoints :=
            if isLeftToRight
            then push (push waypoints {| px := x1; py := currentY |})
                      {| px := x2; py := currentY |}
            else push (push waypoints {| px := x2; py := currentY |})
                      {| px := x1; py := currentY |} in
          emitPairs iterations' (k + 2) intersections isLeftToRight currentY waypoints
      else waypoints
  end.

(** Lines 237-278: [while (currentY <= bbox.maxY)].  The loop need not
    end (a spacing of 0 never advances [currentY]), so it runs on an
    iteration budget. *)
Fixpoint scanLines (fuel : nat) (rotatedPolygon : list Planar)
  (finalSpacing maxY_ currentY : float) (lineIndex : nat)
  (waypoints : list Planar) : Outcome (list Planar) :=
  if currentY <=? maxY_ then
    match fuel with
    | O => OutOfFuel
    | S fuel' =>
        intersections <- findIntersections rotatedPolygon currentY ;;
        let intersections := sort (fun a b => a - b) intersections in
        let isLeftToRight := (lineIndex mod 2 =? 0)%nat in
        let waypoints :=
          emitPairs (List.length intersections) 0 intersections
            isLeftToRight currentY waypoints in
        scanLines fuel' rotatedPolygon finalSpacing maxY_
          (currentY + finalSpacing) (S lineIndex) waypoints
    end
  else Return waypoints.

(** An element of the array [generatePolygonRoute] returns. *)
Inductive RouteItem : Type :=
| WaypointItem (w : Waypoint)
| BuildInfo (configId buildVersion : string).

(** Steps 4-10 (lines 216-305), on the projected (and possibly shrunk)
    polygon. *)
Definition scanRoute (fuel : nat) (origin : Geo) (polygon : list Planar)
  (angle finalSpacing height_ speed_ : float) (optimizePath : bool)
  : Outcome (list RouteItem) :=
  let center := getPolygonCenter polygon in
  let angleRad := - angle * Math_PI / 180 in
  let rotatedPolygon := map (fun p => rotatePoint p angleRad (Some center)) polygon in
  let bbox := getBoundingBox rotatedPolygon in
  waypoints <-
    scanLines fuel rotatedPolygon finalSpacing (maxY bbox)
      (minY bbox + finalSpacing / 2) 0 [] ;;
  optimizedWaypoints <-
    (if optimizePath && (4 <? List.length waypoints)%nat
     then optimizeRoutePath waypoints
     else Return waypoints) ;;
  let unrotatedWaypoints :=
    map (fun p => rotatePoint p (- angleRad) (Some center)) optimizedWaypoints in
  let result :=
    map_indexed
      (fun p index_ =>
         let coords := unprojectFromMeters (px p) (py p) origin in
         WaypointItem
           {| wlat := Number (toFixed (lat coords) 7);
              wlng := Number (toFixed (lng coords) 7);
              height := Some height_;
              speed := Some speed_;
              index := Some index_ |})
      unrotatedWaypoints in
  Return result.

(** Lines 162-306.  The first component is what the call writes with
    [console.error]; [console.log] output is not modelled. *)
Definition generatePolygonRoute (fuel : nat) (boundaryPoints : list Geo)
  (options : RouteOptions) : list string * Outcome (list RouteItem) :=
  if (EARTH_RADIUS =? 0) || (1e10 <? Math_abs EARTH_RADIUS) then
    ([], Return [BuildInfo
       "UE9MWS1ST1VURS0yMDI0MTIwOS1oZWNvbmd5dWFuLWRqaS1wb2x5Z29uLWdlbmVyYXRvcg=="
       "djEuMC4wLTIwMjQxMjA5LXByb2R1Y3Rpb24tYnVpbGQ="])
  else if (List.length boundaryPoints <? 3)%nat then
    (["At least 3 boundary points required to generate polygon route"%string],
     Return [])
  else
    let spacing := default 30 (opt_spacing options) in
    let angle := default 0 (opt_angle options) in
    let margin := default 0 (opt_margin options) in
    let height_ := default 50 (opt_height options) in
    let speed_ := default 5 (opt_speed options) in
    let overlapRate := default 0.7 (opt_overlapRate options) in
    let camera := opt_camera options in
    let useCamera := default false (opt_useCamera options) in
    let optimizePath := default true (opt_optimizePath options) in
    let finalSpacing :=
      if useCamera then
        match camera with
        | Some camera =>
            calculateSpacing height_ camera overlapRate (Some "lateral"%string)
        | None => spacing
        end
      else spacing in
    match elem boundaryPoints 0 with
    | Return origin =>
        let polygon := map (fun p => projectToMeters (lat p) (lng p) origin) boundaryPoints in
        let continue polygon :=
          ([], scanRoute fuel origin polygon angle finalSpacing height_ speed_ optimizePath) in
        if 0 <? margin then
          let polygon := shrinkPolygon polygon margin in
          if (List.length polygon <? 3)%nat then
            (["Polygon too small after applying margin"%string], Return [])
          else continue polygon
        else continue polygon
    | TypeError => ([], TypeError)
    | OutOfFuel => ([], OutOfFuel)
    end.

End WithHost.

(** A value stored in a property that holds a number on one path and
    a string on another. *)
Inductive JsValue : Type :=
| JsNumber (n : float)
| JsString (s : string).

(** [{ totalDistance, flightTime, photoCount }]. *)
Record RouteStats : Type := {
  totalDistance : JsValue;
  flightTime : float;
  photoCount : nat
}.

(** Lines 353-357: the body of the distance loop. *)
Definition addSegment (waypoints : list Waypoint) (i : nat) (totalDistance_ : float)
  : Outcome float :=
  p1 <- elem waypoints i ;;
  p2 <- elem waypoints (i + 1) ;;
  let dx := wlng p2 - wlng p1 in
  let dy := wlat p2 - wlat p1 in
  Return (totalDistance_
          + Math_sqrt (dx * dx + dy * dy) * EARTH_RADIUS * Math_PI / 180).

(** Line 360: [waypoints[0]?.speed || 5]. *)
Definition avgSpeed (waypoints : list Waypoint) : float :=
  match at_index waypoints 0 with
  | Some first =>
      match speed first with
      | Some s => if truthy s then s else 5
      | None => 5
      end
  | None => 5
  end.

(** Lines 342-368. *)
Definition calculateRouteStats (waypoints : list Waypoint) : Outcome RouteStats :=
  if (List.length waypoints <? 2)%nat then
    Return {| totalDistance := JsNumber 0; flightTime := 0; photoCount := 0 |}
  else
    totalDistance_ <-
      for_range 0 (List.length waypoints - 1) (addSegment waypoints) 0 ;;
    let flightTime_ := totalDistance_ / avgSpeed waypoints in
    Return {| totalDistance := JsString (toFixed totalDistance_ 2);
              flightTime := Math_ceil flightTime_;
              photoCount := List.length waypoints |}.

(** Lines 379-383: the body of the inner loop of [isPolygonValid]. *)
Definition comparePair (points : list Geo) (i j : nat) (_ : unit)
  : Outcome (unit + bool) :=
  pi_ <- elem points i ;;
  pj <- elem points j ;;
  let dx := lng pi_ - lng pj in
  let dy := lat pi_ - lat pj in
  if (Math_abs dx <? 0.000001) && (Math_abs dy <? 0.000001)
  then Return (inr false)
  else Return (inl tt).

(** Lines 378-384: the body of the outer loop,
    [for (let j = i + 1; j < points.length; j++)]. *)
Definition compareFrom (points : list Geo) (i : nat) (_ : unit)
  : Outcome (unit + bool) :=
  for_range_ret (i + 1) (List.length points - (i + 1)) (comparePair points i) tt.

(** Lines 373-388. *)
Definition isPolygonValid (points : list Geo) : Outcome bool :=
  if (List.length points <? 3)%nat then Return false
  else
    completion <- for_range_ret 0 (List.length points) (compareFrom points) tt ;;
    match completion with
    | inr v => Return v
    | inl _ => Return true
    end.

End Route.

(* ================================================================== *)
(** * coordTransform.js                                                *)
(* ================================================================== *)

Module CoordTransform.
Import Js.
Local Open Scope float_scope.

Definition PI : float := Math_PI.
Definition EARTH_RADIUS : float := 6378137.0.

(** [{ lng, lat }], or the object [{ fallbackKey }]. *)
Inductive TransformResult : Type :=
| Coordinates (p : GeoPoint float)
| Fallback (fallbackKey : string).

Definition isInChina (lng_ lat_ : float) : bool :=
  (72.004 <=? lng_) && (lng_ <=? 137.8347) && (0.8293 <=? lat_) && (lat_ <=? 55.8271).

Section WithHost.
Context `{MathHost}.

Definition transformLat (lng_ lat_ : float) : float :=
  let ret := -100.0 + 2.0 * lng_ + 3.0 * lat_ + 0.2 * lat_ * lat_
             + 0.1 * lng_ * lat_ + 0.2 * Math_sqrt (Math_abs lng_) in
  let ret := ret + (20.0 * Math_sin (6.0 * lng_ * PI)
                    + 20.0 * Math_sin (2.0 * lng_ * PI)) * 2.0 / 3.0 in
  let ret := ret + (20.0 * Math_sin (lat_ * PI)
                    + 40.0 * Math_sin (lat_ / 3.0 * PI)) * 2.0 / 3.0 in
  let ret := ret + (160.0 * Math_sin (lat_ / 12.0 * PI)
                    + 320 * Math_sin (lat_ * PI / 30.0)) * 2.0 / 3.0 in
  ret.

Definition transformLng (lng_ lat_ : float) : float :=
  let ret := 300.0 + lng_ + 2.0 * lat_ + 0.1 * lng_ * lng_
             + 0.1 * lng_ * lat_ + 0.1 * Math_sqrt (Math_abs lng_) in
  let ret := ret + (20.0 * Math_sin (6.0 * lng_ * PI)
                    + 20.0 * Math_sin (2.0 * lng_ * PI)) * 2.0 / 3.0 in
  let ret := ret + (20.0 * Math_sin (lng_ * PI)
                    + 40.0 * Math_sin (lng_ / 3.0 * PI)) * 2.0 / 3.0 in
  let ret := ret + (150.0 * Math_sin (lng_ / 12.0 * PI)
                    + 300.0 * Math_sin (lng_ / 30.0 * PI)) * 2.0 / 3.0 in
  ret.

(** GCJ-02 to WGS84 (lines 31-57). *)
Definition gcj02ToWgs84 (lng_ lat_ : float) : TransformResult :=
  if 4 <? Math_PI then
    Fallback "R0NKMDItV0dTODQtMjAyNDEyMDktaGVjb25neXVhbi1jb29yZC10cmFuc2Zvcm0="
  else if negb (isInChina lng_ lat_) then
    Coordinates {| lng := lng_; lat := lat_ |}
  else
    let dlat := transformLat (lng_ - 105.0) (lat_ - 35.0) in
    let dlng := transformLng (lng_ - 105.0) (lat_ - 35.0) in
    let radlat := lat_ / 180.0 * PI in
    let magic := Math_sin radlat in
    let magic := 1 - 0.00669342162296594323 * magic * magic in
    let sqrtmagic := Math_sqrt magic in
    let dlat := (dlat * 180.0)
                / ((EARTH_RADIUS * (1 - 0.00669342162296594323))
                   / (magic * sqrtmagic) * PI) in
    let dlng := (dlng * 180.0)
                / (EARTH_RADIUS / sqrtmagic * Math_cos radlat * PI) in
    let mglat := lat_ + dlat in
    let mglng := lng_ + dlng in
    Coordinates {| lng := lng_ * 2 - mglng; lat := lat_ * 2 - mglat |}.

(** WGS84 to GCJ-02 (lines 60-83).  The first component is what the
    call writes with [console.warn]. *)
Definition wgs84ToGcj02 (lng_ lat_ : float) : list string * GeoPoint float :=
  let warnings :=
    if EARTH_RADIUS <? 0
    then ["V0dTODQtR0NKMDItMjAyNDEyMDktaGVjb25neXVhbi1yZXZlcnNlLXRyYW5zZm9ybQ=="%string]
    else [] in
  if negb (isInChina lng_ lat_) then
    (warnings, {| lng := lng_; lat := lat_ |})
  else
    let dlat := transformLat (lng_ - 105.0) (lat_ - 35.0) in
    let dlng := transformLng (lng_ - 105.0) (lat_ - 35.0) in
    let radlat := lat_ / 180.0 * PI in
    let magic := Math_sin radlat in
    let magic := 1 - 0.00669342162296594323 * magic * magic in
    let sqrtmagic := Math_sqrt magic in
    let dlat := (dlat * 180.0)
                / ((EARTH_RADIUS * (1 - 0.00669342162296594323))
                   / (magic * sqrtmagic) * PI) in
    let dlng := (dlng * 180.0)
                / (EARTH_RADIUS / sqrtmagic * Math_cos radlat * PI) in
    (warnings, {| lng := lng_ + dlng; lat := lat_ + dlat |}).

End WithHost.
End CoordTransform.

(* ================================================================== *)
(** * A host for running the model                                     *)
(* ================================================================== *)

(** One admissible [MathHost]: cosine and sine by their Maclaurin
    polynomials (degree 20 and 21), evaluated in binary64, and the
    sort of V8 for short arrays.  It is used to run the model on
    concrete inputs; every theorem below holds for all hosts. *)
Module SeriesHost.
Local Open Scope float_scope.

(** [sum_{i < terms} (-1)^i * x2^i * c_i], with the running term
    [t_(i+1) = - t_i * x2 / ((k + 1) * (k + 2))]. *)
Fixpoint series (terms : nat) (x2 k term acc : float) : float :=
  match terms with
  | O => acc
  | S terms' =>
      let term' := - term * x2 / ((k + 1) * (k + 2)) in
      series terms' x2 (k + 2) term' (acc + term)
  end.

Definition cos_series (x : float) : float := series 11 (x * x) 0 1 0.
Definition sin_series (x : float) : float := x * series 11 (x * x) 1 1 0.

(** The sort of this host: a binary insertion sort behind the run the
    array starts with, reversed when it descends, which is how V8
    sorts an array of fewer than 64 elements. *)
Section Sort.
Context {A : Type} (compare : A -> A -> float).

Definition order (a b : A) : float :=
  let v := compare a b in if is_nan v then 0 else v.

(** How far the run that ends at [previous] goes on into [rest]. *)
Fixpoint runLength (isDescending : bool) (previous : A) (rest : list A) : nat :=
  match rest with
  | [] => O
  | current :: rest' =>
      let below := order current previous <? 0 in
      if (if isDescending then negb below else below) then O
      else S (runLength isDescending current rest')
  end.

(** The initial run, put in ascending order, and the other elements. *)
Definition countAndMakeRun (arr : list A) : list A * list A :=
  match arr with
  | elementHigh :: elementLow :: rest =>
      let isDescending := order elementLow elementHigh <? 0 in
      let n := (2 + runLength isDescending elementLow rest)%nat in
      let run := firstn n arr in
      (if isDescending then rev run else run, skipn n arr)
  | _ => (arr, [])
  end.

(** Where [pivot] belongs among the first [right] elements of
    [sorted], by bisection. *)
Fixpoint insertionPoint (steps : nat) (pivot : A) (sorted : list A)
  (left right : nat) : nat :=
  match steps with
  | O => left
  | S steps' =>
      if (left <? right)%nat then
        let mid := (left + (right - left) / 2)%nat in
        match nth_error sorted mid with
        | Some x =>
            if order pivot x <? 0
            then insertionPoint steps' pivot sorted left mid
            else insertionPoint steps' pivot sorted (mid + 1) right
        | None => left
        end
      else left
  end.

Definition insertPivot (sorted : list A) (pivot : A) : list A :=
  let left :=
    insertionPoint (List.length sorted) pivot sorted 0 (List.length sorted) in
  firstn left sorted ++ pivot :: skipn left sorted.

Definition binaryInsertionSort (arr : list A) : list A :=
  let '(run, rest) := countAndMakeRun arr in
  fold_left insertPivot rest run.

End Sort.

#[export] Instance host : Js.MathHost.
Proof.
  refine {| Js.Math_cos := cos_series;
            Js.Math_sin := sin_series;
            Js.Array_sort_inconsistent := @binaryInsertionSort |}.
  intros A compare arr. unfold binaryInsertionSort.
  assert (Hfold : forall rest run,
             Permutation (run ++ rest) (fold_left (insertPivot compare) rest run)).
  { induction rest as [|pivot rest IH]; intros run; cbn [fold_left].
    - rewrite app_nil_r. reflexivity.
    - rewrite <- IH. unfold insertPivot.
      set (left := insertionPoint _ _ _ _ _ _).
      rewrite <- (firstn_skipn left run) at 1.
      rewrite <- !app_assoc. apply Permutation_app_head.
      cbn [app]. symmetry. apply Permutation_middle. }
  assert (Hrun : Permutation arr
                   (fst (countAndMakeRun compare arr) ++ snd (countAndMakeRun compare arr))).
  { destruct arr as [|a0 [|a1 arr]]; cbn [countAndMakeRun fst snd];
      rewrite ?app_nil_r; try reflexivity.
    match goal with |- context [skipn ?k _] => set (n := k) end.
    rewrite <- (firstn_skipn n (a0 :: a1 :: arr)) at 1.
    apply Permutation_app_tail.
    destruct (order compare a1 a0 <? 0); [apply Permutation_rev | reflexivity]. }
  destruct (countAndMakeRun compare arr) as [run rest].
  rewrite <- Hfold. exact Hrun.
Defined.

End SeriesHost.

(* ================================================================== *)
(** * What the specification says, as definitions                      *)
(* ================================================================== *)

Module Spec.
Import Js Route.
Local Open Scope float_scope.

(** Decimal numerals: a string made of decimal digits only. *)
Fixpoint all_digits (s : string) : bool :=
  match s with
  | EmptyString => true
  | String c rest => is_digit c && all_digits rest
  end.

(** The integer nearest to [num / den] for [num >= 0] and [den > 0],
    the larger one on a tie. *)
Definition nearestInteger (num den : Z) : Z := (2 * num + den) / (2 * den).

(** [r] is [x] rounded to [f] decimal places: the binary64 value
    nearest to [n / 10^f], where [n] is the integer nearest to
    [|x| * 10^f], with the sign of [x].  A NaN or an infinity is left
    as it is, a zero gives +0, and magnitudes of [10^21] and more
    (which print in exponent form) are not constrained. *)
Definition roundedTo (f : nat) (x r : float) : Prop :=
  match decode x with
  | S754_nan | S754_infinity _ => r = x
  | S754_zero _ => r = 0%float
  | S754_finite s m e =>
      let num := (Zpos m * 2 ^ Z.max e 0)%Z in
      let den := (2 ^ Z.max (- e) 0)%Z in
      (num < 10 ^ 21 * den)%Z ->
      let n := nearestInteger (num * 10 ^ Z.of_nat f) den in
      let r' := float_of_ratio n (10 ^ Z.of_nat f) in
      r = if s then (- r')%float else r'
  end.

(** Route statistics: the length of one leg, in metres, and the sum of
    the legs over consecutive waypoint pairs, in path order. *)
Definition legLength (p1 p2 : Waypoint) : float :=
  let dlng := wlng p2 - wlng p1 in
  let dlat := wlat p2 - wlat p1 in
  Math_sqrt (dlng * dlng + dlat * dlat) * 6378137 * Math_PI / 180.

Definition consecutive {A} (l : list A) : list (A * A) := combine l (tl l).

Definition pathLength (w : list Waypoint) : float :=
  fold_left (fun total '(p1, p2) => total + legLength p1 p2) (consecutive w) 0.

(** The speed of the first waypoint, or 5 m/s when that waypoint has
    no [speed]. *)
Definition speedOfFirstWaypoint (w : list Waypoint) : float :=
  match w with
  | first :: _ => default 5 (speed first)
  | [] => 5
  end.

(** Path optimizer: the magnitude of the cross product of the
    displacement into [curr] and the displacement out of it. *)
Definition crossMagnitude (prev curr next : Planar) : float :=
  Math_abs ((px curr - px prev) * (py next - py curr)
            - (py curr - py prev) * (px next - px curr)).

(** Position [i] of [w] is retained when it is the first or the last
    position, or an interior one whose cross product exceeds the
    collinearity tolerance. *)
Definition retained (w : list Planar) (i : nat) : bool :=
  (i =? 0)%nat || (i =? List.length w - 1)%nat
  || match at_index w (i - 1), at_index w i, at_index w (i + 1) with
     | Some prev, Some curr, Some next => 0.01 <? crossMagnitude prev curr next
     | _, _, _ => false
     end.

(** The points of [w] at the retained positions, in their order. *)
Definition selectAt {A} (keep : nat -> bool) (positions : list nat) (l : list A) : list A :=
  map snd (filter (fun '(i, _) => keep i) (combine positions l)).

Definition selection (w : list Planar) : list Planar :=
  selectAt (retained w) (seq 0 (List.length w)) w.

(** [l1] is [l2] with some elements removed. *)
Inductive Subsequence {A : Type} : list A -> list A -> Prop :=
| sub_nil : Subsequence [] []
| sub_keep (a : A) (l1 l2 : list A) :
    Subsequence l1 l2 -> Subsequence (a :: l1) (a :: l2)
| sub_drop (a : A) (l1 l2 : list A) :
    Subsequence l1 l2 -> Subsequence l1 (a :: l2).

(** Geodetic transform: [x] lies in the closed interval [[lo, hi]]. *)
Definition within (lo hi x : float) : Prop :=
  (lo <=? x) = true /\ (x <=? hi) = true.

(** Sample waypoints for concrete runs. *)
Definition waypointAt (lat_ lng_ : float) (speed_ : option float) : Waypoint :=
  {| wlat := lat_; wlng := lng_; height := Some 50; speed := speed_; index := None |}.

Definition oneDegreeEast (speed_ : option float) : list Waypoint :=
  [waypointAt 0 0 speed_; waypointAt 0 1 speed_].

(** A path along the X axis that then turns north: its second point
    is collinear with its neighbours, its third is a corner. *)
Definition cornerPath : list Planar :=
  [ {| px := 0; py := 0 |}; {| px := 1; py := 0 |};
    {| px := 2; py := 0 |}; {| px := 2; py := 1 |} ].

(** The square boundary and the configuration of the specification's
    scenario, a boundary of two points, and a configuration that sets
    only a margin. *)
Definition squareBoundary : list Geo :=
  [ {| lat := 0; lng := 0 |}; {| lat := 0; lng := 0.001 |};
    {| lat := 0.001; lng := 0.001 |}; {| lat := 0.001; lng := 0 |} ].

Definition squareOptions : RouteOptions :=
  {| opt_spacing := Some 30; opt_angle := Some 0; opt_margin := Some 0;
     opt_height := Some 50; opt_speed := Some 5; opt_overlapRate := None;
     opt_camera := None; opt_useCamera := None;
     opt_optimizePath := Some false |}.

Definition twoPoints : list Geo :=
  [ {| lat := 0; lng := 0 |}; {| lat := 0; lng := 0.001 |} ].

Definition marginOptions : RouteOptions :=
  {| opt_spacing := None; opt_angle := None; opt_margin := Some 10;
     opt_height := None; opt_speed := None; opt_overlapRate := None;
     opt_camera := None; opt_useCamera := None; opt_optimizePath := None |}.

End Spec.

(* ================================================================== *)
(** * Reference definitions for the loops                              *)
(* ================================================================== *)

Module Reference.
Import Js Route.
Local Open Scope float_scope.

(** Two boundary points closer than 0.000001 degrees in both
    coordinates. *)
Definition tooClose (p q : Geo) : bool :=
  (Math_abs (lng p - lng q) <? 0.000001) && (Math_abs (lat p - lat q) <? 0.000001).

(** Some point of the list is too close to a later one. *)
Fixpoint anyClash (points : list Geo) : bool :=
  match points with
  | [] => false
  | p :: rest => existsb (tooClose p) rest || anyClash rest
  end.

(** The edges of a polygon: each vertex with the next one, and the
    last vertex with the first. *)
Definition edges (polygon : list Planar) : list (Planar * Planar) :=
  combine polygon (tl polygon ++ firstn 1 polygon).

(** The X coordinate at which the edge from [p1] to [p2] crosses the
    horizontal line [y], when it does. *)
Definition crossing (y : float) (edge : Planar * Planar) : list float :=
  let '(p1, p2) := edge in
  if ((py p1 <=? y) && (y <? py p2)) || ((y <? py p1) && (py p2 <=? y))
  then [px p1 + (y - py p1) / (py p2 - py p1) * (px p2 - px p1)]
  else [].

(** Consecutive elements taken two by two; an element left alone at
    the end is dropped. *)
Fixpoint pairUp (xs : list float) : list (float * float) :=
  match xs with
  | x1 :: x2 :: rest => (x1, x2) :: pairUp rest
  | _ => []
  end.

(** The two waypoints of one pair on the scan line [y], in sweep
    order. *)
Definition sweep (isLeftToRight : bool) (y : float) (pair : float * float)
  : list Planar :=
  let '(x1, x2) := pair in
  if isLeftToRight
  then [ {| px := x1; py := y |}; {| px := x2; py := y |} ]
  else [ {| px := x2; py := y |}; {| px := x1; py := y |} ].

(** Lines 242-252: the body of the edge loop of the scan. *)
Definition edgeStep (rotatedPolygon : list Planar) (currentY : float)
  (i : nat) (intersections : list float) : Outcome (list float) :=
  bind (elem rotatedPolygon i) (fun p1 =>
  bind (elem rotatedPolygon ((i + 1) mod List.length rotatedPolygon)) (fun p2 =>
    if ((py p1 <=? currentY) && (currentY <? py p2))
       || ((currentY <? py p1) && (py p2 <=? currentY))
    then Return (push intersections
                   (px p1 + (currentY - py p1) / (py p2 - py p1) * (px p2 - px p1)))
    else Return intersections)).

(** Lines 108-111: the body of the [forEach] of [getBoundingBox]. *)
Definition extend (box : BoundingBox) (p : Planar) : BoundingBox :=
  {| minX := Math_min (minX box) (px p);
     minY := Math_min (minY box) (py p);
     maxX := Math_max (maxX box) (px p);
     maxY := Math_max (maxY box) (py p) |}.

(** Neither coordinate of the point is NaN. *)
Definition numeric (p : Planar) : Prop :=
  is_nan (px p) = false /\ is_nan (py p) = false.

(** The point lies in the box, borders included. *)
Definition inside (box : BoundingBox) (p : Planar) : Prop :=
  (minX box <=? px p) = true /\ (px p <=? maxX box) = true
  /\ (minY box <=? py p) = true /\ (py p <=? maxY box) = true.

(** The waypoints among the elements of a returned array. *)
Definition waypointsOf (items : list RouteItem) : list Waypoint :=
  flat_map (fun item => match item with
                        | WaypointItem w => [w]
                        | BuildInfo _ _ => []
                        end) items.

(** Ascending order, equal neighbours allowed. *)
Definition ascending (l : list float) : Prop :=
  StronglySorted (fun a b => (a <=? b) = true) l.

(** A finite or infinite binary64 value of sign [s]: not a zero and
    not NaN. *)
Definition signed (s : bool) (x : spec_float) : Prop :=
  (exists m e, x = S754_finite s m e) \/ x = S754_infinity s.

(** The mantissa of a finite value, with its sign, at a smaller
    exponent [ez]: the value is [aligned s m e ez * 2^ez]. *)
Definition aligned (s : bool) (m : positive) (e ez : Z) : Z :=
  cond_Zopp s (Zpos (fst (shl_align m e ez))).


Definition spacingOptions (spacing : float) : RouteOptions :=
  {| opt_spacing := Some spacing; opt_angle := None; opt_margin := None;
     opt_height := None; opt_speed := None; opt_overlapRate := None;
     opt_camera := None; opt_useCamera := None; opt_optimizePath := None |}.


Definition unitSquare : list Planar :=
  [ {| px := 0; py := 0 |}; {| px := 1; py := 0 |};
    {| px := 1; py := 1 |}; {| px := 0; py := 1 |} ].

(** A square with a notch in its upper side: the line [y = 2] meets
    its edges at X = 4, 8/3, 4/3 and 0, in that order. *)
Definition notchedSquare : list Planar :=
  [ {| px := 0; py := 0 |}; {| px := 4; py := 0 |}; {| px := 4; py := 4 |};
    {| px := 2; py := 1 |}; {| px := 0; py := 4 |} ].

End Reference.

(** The same, over the real numbers. *)
Module RealReference.
Local Open Scope R_scope.

(** The square of the distance between two planar points. *)
Definition sqDistance (p q : PlanarPoint R) : R :=
  (px p - px q) * (px p - px q) + (py p - py q) * (py p - py q).

(** The sums of the coordinates of a polygon's vertices. *)
Definition sumOfX (polygon : list (PlanarPoint R)) : R :=
  fold_right (fun p total => px p + total) 0 polygon.
Definition sumOfY (polygon : list (PlanarPoint R)) : R :=
  fold_right (fun p total => py p + total) 0 polygon.

End RealReference.

(* ================================================================== *)
(** * Loops                                                            *)
(* ================================================================== *)

Lemma elem_app {A} (pre rest : list A) (a : A) :
  elem (pre ++ a :: rest) (List.length pre) = Return a.
Proof.
  unfold elem, at_index.
  rewrite nth_error_app2, Nat.sub_diag by lia. reflexivity.
Qed.

Lemma elem_app_next {A} (pre rest : list A) (a b : A) :
  elem (pre ++ a :: b :: rest) (List.length pre + 1) = Return b.
Proof.
  unfold elem, at_index.
  rewrite nth_error_app2 by lia.
  replace (List.length pre + 1 - List.length pre)%nat with 1%nat by lia.
  reflexivity.
Qed.

Lemma snoc_app {A} (pre rest : list A) (a : A) :
  (pre ++ [a]) ++ rest = pre ++ a :: rest.
Proof. rewrite <- app_assoc. reflexivity. Qed.

Lemma length_snoc {A} (pre : list A) (a : A) :
  List.length (pre ++ [a]) = S (List.length pre).
Proof. rewrite length_app. simpl. lia. Qed.

(* ================================================================== *)
(** * Printing and reading decimals                                    *)
(* ================================================================== *)

Module NumberFacts.
Import Js Spec.
Local Open Scope Z_scope.

Lemma all_digits_app (a b : string) :
  all_digits (a ++ b) = all_digits a && all_digits b.
Proof.
  induction a as [|c a IH]; [reflexivity|].
  cbn [append all_digits]. rewrite IH. apply andb_assoc.
Qed.

Lemma all_digits_zeros (j : nat) : all_digits (zeros j) = true.
Proof. induction j as [|j IH]; [reflexivity|]. cbn [zeros all_digits]. rewrite IH. reflexivity. Qed.

Lemma all_digits_uint (d : Decimal.uint) :
  all_digits (NilEmpty.string_of_uint d) = true.
Proof. induction d; cbn [NilEmpty.string_of_uint all_digits]; try rewrite IHd; reflexivity. Qed.

Lemma all_digits_digits (n : Z) : all_digits (digits n) = true.
Proof.
  unfold digits, NilZero.string_of_uint.
  destruct (N.to_uint (Z.to_N n)); try apply all_digits_uint. reflexivity.
Qed.

Lemma digits_value_acc (d : Decimal.uint) (acc : positive) :
  digits_value (Zpos acc) (NilEmpty.string_of_uint d) = Zpos (Pos.of_uint_acc d acc).
Proof.
  revert acc.
  induction d; intros acc; cbn [NilEmpty.string_of_uint digits_value Pos.of_uint_acc];
    [reflexivity|..]; rewrite <- IHd; f_equal;
    match goal with
    | |- context [Z.of_nat (nat_of_ascii ?c)] =>
        let v := eval vm_compute in (Z.of_nat (nat_of_ascii c)) in
        change (Z.of_nat (nat_of_ascii c)) with v
    end; lia.
Qed.

Lemma digits_value_uint (d : Decimal.uint) :
  digits_value 0 (NilEmpty.string_of_uint d) = Z.of_N (Pos.of_uint d).
Proof.
  induction d; cbn [NilEmpty.string_of_uint digits_value Pos.of_uint];
    [reflexivity| exact IHd |..]; apply digits_value_acc.
Qed.

Lemma digits_value_digits (n : Z) : 0 <= n -> digits_value 0 (digits n) = n.
Proof.
  intros Hn. unfold digits.
  assert (Hd : Z.of_N (N.of_uint (N.to_uint (Z.to_N n))) = n)
    by (rewrite DecimalN.Unsigned.of_to; apply Z2N.id; exact Hn).
  revert Hd. generalize (N.to_uint (Z.to_N n)) as d. intros d <-.
  unfold NilZero.string_of_uint.
  destruct d; try apply digits_value_uint. reflexivity.
Qed.

Lemma digits_nonempty (n : Z) : digits n <> EmptyString.
Proof.
  unfold digits, NilZero.string_of_uint.
  destruct (N.to_uint (Z.to_N n)); discriminate.
Qed.

Lemma digits_value_zeros (j : nat) (s : string) :
  digits_value 0 (zeros j ++ s) = digits_value 0 s.
Proof. induction j as [|j IH]; [reflexivity|]. cbn [zeros append digits_value]. exact IH. Qed.


Lemma splitAt_spec (j : nat) (s : string) :
  (j <= String.length s)%nat ->
  forall a b, splitAt j s = (a, b) ->
    (a ++ b)%string = s /\ String.length a = j.
Proof.
  revert s. induction j as [|j IH]; intros s Hlen a b Hsplit.
  - destruct s; injection Hsplit as <- <-; auto.
  - destruct s as [|c s]; [cbn in Hlen; lia|].
    cbn [splitAt] in Hsplit.
    destruct (splitAt j s) as [a' b'] eqn:E. injection Hsplit as <- <-.
    destruct (IH s ltac:(cbn in Hlen; lia) a' b' E) as [Happ Hlength].
    cbn [append String.length]. rewrite Happ, Hlength. auto.
Qed.

Lemma length_append (a b : string) :
  String.length (a ++ b) = (String.length a + String.length b)%nat.
Proof. induction a as [|c a IH]; [reflexivity|]. cbn. rewrite IH. reflexivity. Qed.

Lemma length_zeros (j : nat) : String.length (zeros j) = j.
Proof. induction j as [|j IH]; [reflexivity|]. cbn. rewrite IH. reflexivity. Qed.

(** Reading digits stops at the first character that is not one. *)
Lemma span_digits_app (a rest : string) :
  all_digits a = true ->
  match rest with String c _ => is_digit c = false | EmptyString => True end ->
  span_digits (a ++ rest) = (a, rest).
Proof.
  intros Ha Hrest. induction a as [|c a IH].
  - destruct rest as [|c r]; [reflexivity|]. cbn [append span_digits].
    rewrite Hrest. reflexivity.
  - cbn [all_digits] in Ha. apply andb_prop in Ha as [Hc Ha].
    cbn [append span_digits]. rewrite Hc, (IH Ha). reflexivity.
Qed.

Lemma span_digits_all (a : string) :
  all_digits a = true -> span_digits a = (a, EmptyString).
Proof.
  intros Ha. pose proof (span_digits_app a EmptyString Ha I) as E.
  assert (Hnil : (a ++ "")%string = a).
  { clear. induction a as [|c a IH]; [reflexivity|]. cbn. rewrite IH. reflexivity. }
  rewrite Hnil in E. exact E.
Qed.

(** The digits that toFixed prints, with or without padding. *)
Lemma padded_digits (n : Z) (f : nat) :
  0 <= n ->
  let m0 := digits n in
  let m := if (String.length m0 <=? f)%nat
           then (zeros (f + 1 - String.length m0) ++ m0)%string else m0 in
  all_digits m = true
  /\ digits_value 0 m = n
  /\ (f < String.length m)%nat.
Proof.
  intros Hn. cbn zeta.
  destruct (Nat.leb_spec (String.length (digits n)) f) as [Hshort|Hlong].
  - rewrite all_digits_app, all_digits_zeros, all_digits_digits.
    rewrite digits_value_zeros, digits_value_digits by exact Hn.
    rewrite length_append, length_zeros.
    repeat split. lia.
  - rewrite all_digits_digits, digits_value_digits by exact Hn. auto.
Qed.

(** What toFixed prints for the integer [n] parses to [n * 10^(-f)]. *)
Lemma parse_fixed_point (n : Z) (f : nat) :
  0 <= n -> (1 <= f)%nat ->
  exists c rest,
    fixed_point n f = String c rest
    /\ is_digit c = true
    /\ parse_unsigned (fixed_point n f) = Some (n, - Z.of_nat f).
Proof.
  intros Hn Hf. unfold fixed_point.
  destruct f as [|f']; [lia|]. set (f := S f') in *.
  destruct (padded_digits n f Hn) as [Hall [Hval Hlen]].
  set (m := if (String.length (digits n) <=? f)%nat then _ else _) in *.
  destruct (splitAt (String.length m - f) m) as [a b] eqn:Hsplit.
  destruct (splitAt_spec (String.length m - f) m ltac:(lia) a b Hsplit)
    as [Happ Hla].
  assert (Hlb : String.length b = f).
  { pose proof (f_equal String.length Happ) as E. rewrite length_append in E. lia. }
  rewrite <- Happ, all_digits_app in Hall. apply andb_prop in Hall as [Ha Hb].
  destruct a as [|c a']; [cbn in Hla; lia|].
  exists c, (a' ++ "." ++ b)%string. split; [reflexivity|].
  split; [cbn [all_digits] in Ha; apply andb_prop in Ha as [Hc _]; exact Hc|].
  unfold parse_unsigned.
  rewrite (span_digits_app (String c a') ("." ++ b) Ha) by reflexivity.
  cbn [append]. rewrite (span_digits_all b Hb).
  cbn [is_empty andb].
  change (String c (a' ++ b)) with (String c a' ++ b)%string.
  rewrite Happ, Hval, Hlb. reflexivity.
Qed.


(** A string that starts with a digit carries no sign and is not
    [Infinity]. *)
Lemma digit_led_unsigned (c : ascii) (rest : string) :
  is_digit c = true ->
  match String c rest with
  | String "+"%char r => (false, r)
  | String "-"%char r => (true, r)
  | _ => (false, String c rest)
  end = (false, String c rest).
Proof.
  destruct c as [[|] [|] [|] [|] [|] [|] [|] [|]]; intros Hc;
    try (vm_compute in Hc; discriminate Hc); reflexivity.
Qed.

Lemma digit_led_not_Infinity (c : ascii) (rest : string) :
  is_digit c = true -> (String c rest =? "Infinity")%string = false.
Proof.
  intros Hc. apply String.eqb_neq. intros E. injection E as -> _.
  vm_compute in Hc. discriminate Hc.
Qed.

Lemma Number_digit_led (c : ascii) (rest : string) (D E : Z) :
  is_digit c = true ->
  parse_unsigned (String c rest) = Some (D, E) ->
  Number (String c rest) = float_of_decimal D E
  /\ Number ("-" ++ String c rest) = (- float_of_decimal D E)%float.
Proof.
  intros Hc Hparse. unfold Number. split.
  - cbn [is_empty]. rewrite (digit_led_unsigned c rest Hc).
    rewrite (digit_led_not_Infinity c rest Hc), Hparse. reflexivity.
  - cbn [append is_empty].
    rewrite (digit_led_not_Infinity c rest Hc), Hparse. reflexivity.
Qed.

(** Reading back what toFixed printed for the integer [n]. *)
Lemma Number_fixed_point (n : Z) (f : nat) :
  0 <= n -> (1 <= f)%nat ->
  Number (fixed_point n f) = float_of_ratio n (10 ^ Z.of_nat f)
  /\ Number ("-" ++ fixed_point n f) = (- float_of_ratio n (10 ^ Z.of_nat f))%float.
Proof.
  intros Hn Hf.
  destruct (parse_fixed_point n f Hn Hf) as [c [rest [Hshape [Hc Hparse]]]].
  rewrite Hshape in *.
  destruct (Number_digit_led c rest n (- Z.of_nat f) Hc Hparse) as [Hpos Hneg].
  rewrite Hpos, Hneg. unfold float_of_decimal.
  destruct (Z.leb_spec 0 (- Z.of_nat f)) as [Hle|_]; [lia|].
  rewrite Z.opp_involutive. auto.
Qed.

(** A decoding pins the value down. *)
Lemma decoded (x : float) (sf : spec_float) : decode x = sf -> x = SF2Prim sf.
Proof. unfold decode. intros <-. symmetry. apply SF2Prim_Prim2SF. Qed.

(** "Rounded to [f] decimal places": reading back what
    [toFixed(f)] printed gives the binary64 value nearest to the
    nearest decimal with [f] fraction digits. *)
Lemma Number_toFixed_rounds (x : float) (f : nat) :
  (1 <= f)%nat -> roundedTo f x (Number (toFixed x f)).
Proof.
  intros Hf. unfold roundedTo, toFixed.
  destruct (decode x) as [s|s| |s m e] eqn:Hx.
  - destruct (Number_fixed_point 0 f ltac:(lia) Hf) as [Hzero _].
    rewrite Hzero. reflexivity.
  - rewrite (decoded x _ Hx). destruct s; vm_compute; reflexivity.
  - rewrite (decoded x _ Hx). vm_compute. reflexivity.
  - cbv zeta. intros Hsmall.
    destruct (Z.leb_spec (10 ^ 21 * 2 ^ Z.max (- e) 0) (Z.pos m * 2 ^ Z.max e 0))
      as [Hbig|_]; [lia|].
    unfold nearestInteger.
    replace (2 * (Z.pos m * 2 ^ Z.max e 0) * 10 ^ Z.of_nat f)
      with (2 * (Z.pos m * 2 ^ Z.max e 0 * 10 ^ Z.of_nat f)) by ring.
    set (n := (2 * (Z.pos m * 2 ^ Z.max e 0 * 10 ^ Z.of_nat f) + 2 ^ Z.max (- e) 0)
              / (2 * 2 ^ Z.max (- e) 0)).
    assert (Hn : 0 <= n).
    { unfold n. apply Z.div_pos.
      - assert (0 <= 2 ^ Z.max e 0) by (apply Z.pow_nonneg; lia).
        assert (0 <= 10 ^ Z.of_nat f) by (apply Z.pow_nonneg; lia).
        assert (0 <= 2 ^ Z.max (- e) 0) by (apply Z.pow_nonneg; lia).
        nia.
      - assert (0 < 2 ^ Z.max (- e) 0) by (apply Z.pow_pos_nonneg; lia). lia. }
    destruct (Number_fixed_point n f Hn Hf) as [Hpos Hneg].
    destruct s; [exact Hneg | exact Hpos].
Qed.

(** Exponent form.  The binary64 value nearest to 10^23 lies below
    it, 99999999999999991611392, and its shortest digit string is the
    carried one. *)
Lemma toFixed_carries :
  toFixed (float_of_Z (10 ^ 23)) 2 = "1e+23"%string
  /\ toFixed (float_of_Z 99999999999999991611392) 2 = "1e+23"%string
  /\ toFixed (float_of_Z (10 ^ 21)) 2 = "1e+21"%string
  /\ toFixed (float_of_Z (2 ^ 70)) 2 = "1.1805916207174113e+21"%string
  /\ toFixed (- float_of_Z (10 ^ 35))%float 2 = "-1e+35"%string.
Proof. vm_compute. repeat split. Qed.

End NumberFacts.

(* ================================================================== *)
(** * Route statistics                                                 *)
(* ================================================================== *)

Module StatsFacts.
Import Js Route Spec.
Local Open Scope float_scope.

(** Two floats with different decodings are different. *)
Ltac floats_differ :=
  let E := fresh "E" in
  intro E; apply (f_equal Prim2SF) in E; vm_compute in E; discriminate E.

Lemma EARTH_RADIUS_value : @EARTH_RADIUS float _ = 6378137.
Proof. vm_compute. reflexivity. Qed.

(** One round of the distance loop adds one leg. *)
Lemma addSegment_step (pre rest : list Waypoint) (a b : Waypoint) (total : float) :
  addSegment (pre ++ a :: b :: rest) (List.length pre) total
  = Return (total + legLength a b).
Proof.
  unfold addSegment.
  rewrite elem_app, elem_app_next. cbn [bind].
  unfold legLength. rewrite EARTH_RADIUS_value. reflexivity.
Qed.

(** The distance loop, started anywhere in the array, adds the legs of
    the remaining waypoints in order. *)
Lemma distance_loop (rest pre : list Waypoint) (total : float) :
  for_range (List.length pre) (List.length rest - 1)
    (addSegment (pre ++ rest)) total
  = Return (fold_left (fun t '(p1, p2) => t + legLength p1 p2)
              (consecutive rest) total).
Proof.
  revert pre total.
  induction rest as [|a rest IH]; intros pre total; [reflexivity|].
  destruct rest as [|b rest]; [reflexivity|].
  replace (List.length (a :: b :: rest) - 1)%nat
    with (S (List.length (b :: rest) - 1)) by (cbn [List.length]; lia).
  cbn [for_range].
  rewrite addSegment_step. cbn [bind].
  rewrite <- length_snoc with (a := a).
  rewrite <- (snoc_app pre (b :: rest) a).
  rewrite IH. reflexivity.
Qed.

Lemma distance_loop_all (w : list Waypoint) :
  for_range 0 (List.length w - 1) (addSegment w) 0 = Return (pathLength w).
Proof. exact (distance_loop w [] 0). Qed.

(** What [calculateRouteStats] returns, on every input. *)
Lemma calculateRouteStats_eq (w : list Waypoint) :
  calculateRouteStats w =
  Return (if (List.length w <? 2)%nat
          then {| totalDistance := JsNumber 0; flightTime := 0; photoCount := 0 |}
          else {| totalDistance := JsString (toFixed (pathLength w) 2);
                  flightTime := Math_ceil (pathLength w / avgSpeed w);
                  photoCount := List.length w |}).
Proof.
  unfold calculateRouteStats.
  destruct (List.length w <? 2)%nat; [reflexivity|].
  rewrite distance_loop_all. reflexivity.
Qed.

(** C1, as stated, fails: for the sequence of one waypoint the code
    takes the [length < 2] branch and reports a photo count of 0, not
    1. *)
Lemma photoCount_single_waypoint :
  exists stats,
    calculateRouteStats [waypointAt 0 0 (Some 5)] = Return stats
    /\ photoCount stats <> List.length [waypointAt 0 0 (Some 5)].
Proof.
  eexists. split; [reflexivity|].
  cbn. discriminate.
Qed.

(** C1, amended: [calculateRouteStats] returns on every waypoint
    sequence, and its [photoCount] is the length of the sequence,
    except for a sequence of length 1, where it is 0. *)
Theorem photoCount_spec (w : list Waypoint) :
  exists stats,
    calculateRouteStats w = Return stats
    /\ photoCount stats = if (List.length w =? 1)%nat then 0%nat else List.length w.
Proof.
  rewrite calculateRouteStats_eq. eexists. split; [reflexivity|].
  destruct w as [|a [|b w]]; reflexivity.
Qed.

(** C2, as stated, fails: for two waypoints one degree of longitude
    apart the code returns the text ["111319.49"], not the binary64
    sum of the leg lengths. *)
Lemma totalDistance_is_text :
  exists stats,
    calculateRouteStats (oneDegreeEast (Some 5)) = Return stats
    /\ totalDistance stats = JsString "111319.49"
    /\ totalDistance stats <> JsNumber (pathLength (oneDegreeEast (Some 5))).
Proof.
  rewrite calculateRouteStats_eq. eexists. split; [reflexivity|].
  split; [vm_compute; reflexivity | discriminate].
Qed.

(** C2, amended: for every waypoint sequence of length >= 2,
    [totalDistance] is the string that [toFixed(2)] prints for the
    binary64 sum, over consecutive waypoint pairs in path order, of
    sqrt(dlng^2 + dlat^2) * 6378137 * PI / 180: that sum rounded to
    two decimal places, as text. *)
Theorem totalDistance_spec (w : list Waypoint) :
  (2 <= List.length w)%nat ->
  exists stats,
    calculateRouteStats w = Return stats
    /\ totalDistance stats = JsString (toFixed (pathLength w) 2)
    /\ roundedTo 2 (pathLength w) (Number (toFixed (pathLength w) 2)).
Proof.
  intros Hlen. rewrite calculateRouteStats_eq.
  destruct (Nat.ltb_spec (List.length w) 2) as [Hlt|_]; [lia|].
  eexists. split; [reflexivity|]. split; [reflexivity|].
  apply NumberFacts.Number_toFixed_rounds. lia.
Qed.

Lemma totalDistance_spec_witness :
  (2 <= List.length (oneDegreeEast (Some 5%float)))%nat
  /\ exists stats,
       calculateRouteStats (oneDegreeEast (Some 5)) = Return stats
       /\ totalDistance stats = JsString "111319.49".
Proof.
  split; [cbn; lia|].
  destruct (totalDistance_spec (oneDegreeEast (Some 5))) as [stats [Hrun [Htext _]]];
    [cbn; lia|].
  exists stats. split; [exact Hrun|].
  rewrite Htext. vm_compute. reflexivity.
Defined.

(** C6, as stated, fails: when the first waypoint carries the speed 0,
    the claim divides by that speed (an infinite flight time), while
    the code falls back to 5 m/s and returns 22264 s. *)
Lemma flightTime_zero_speed :
  exists stats,
    calculateRouteStats (oneDegreeEast (Some 0)) = Return stats
    /\ flightTime stats = 22264
    /\ flightTime stats
       <> Math_ceil (pathLength (oneDegreeEast (Some 0))
                     / speedOfFirstWaypoint (oneDegreeEast (Some 0))).
Proof.
  rewrite calculateRouteStats_eq. eexists. split; [reflexivity|].
  split; [vm_compute; reflexivity | floats_differ].
Qed.

(** The divisor of line 361 in terms of the first waypoint's speed. *)
Lemma avgSpeed_eq (w : list Waypoint) :
  avgSpeed w =
  if is_zero (speedOfFirstWaypoint w) || is_nan (speedOfFirstWaypoint w)
  then 5 else speedOfFirstWaypoint w.
Proof.
  unfold avgSpeed, speedOfFirstWaypoint, at_index, truthy.
  destruct w as [|first rest]; [reflexivity|].
  cbn [nth_error]. destruct (speed first) as [s|]; cbn [default]; [|reflexivity].
  destruct (is_zero s || is_nan s); reflexivity.
Qed.

(** C6, amended: for every waypoint sequence of length >= 2,
    [flightTime] is the unrounded distance sum divided by the first
    waypoint's speed, with 5 m/s in its place when that speed is
    absent, zero or NaN, rounded up to a whole second. *)
Theorem flightTime_spec (w : list Waypoint) :
  (2 <= List.length w)%nat ->
  exists stats,
    calculateRouteStats w = Return stats
    /\ flightTime stats
       = Math_ceil (pathLength w
                    / (if is_zero (speedOfFirstWaypoint w)
                          || is_nan (speedOfFirstWaypoint w)
                       then 5 else speedOfFirstWaypoint w)).
Proof.
  intros Hlen. rewrite calculateRouteStats_eq.
  destruct (Nat.ltb_spec (List.length w) 2) as [Hlt|_]; [lia|].
  eexists. split; [reflexivity|].
  cbn [flightTime]. rewrite avgSpeed_eq. reflexivity.
Qed.

Lemma flightTime_spec_witness :
  (2 <= List.length (oneDegreeEast None))%nat
  /\ exists stats,
       calculateRouteStats (oneDegreeEast None) = Return stats
       /\ flightTime stats = 22264.
Proof.
  split; [cbn; lia|].
  destruct (flightTime_spec (oneDegreeEast None)) as [stats [Hrun Htime]];
    [cbn; lia|].
  exists stats. split; [exact Hrun|].
  rewrite Htime. vm_compute. reflexivity.
Defined.

(** The divisor of line 361 is never a zero. *)
Lemma avgSpeed_nonzero (w : list Waypoint) : is_zero (avgSpeed w) = false.
Proof.
  unfold avgSpeed, truthy.
  destruct (at_index w 0) as [first|]; [|reflexivity].
  destruct (speed first) as [s|]; [|reflexivity].
  destruct (is_zero s) eqn:Hz; [reflexivity|].
  destruct (is_nan s); cbn [orb negb]; [reflexivity | exact Hz].
Qed.

(** C10: for a waypoint sequence of length >= 2 whose first waypoint
    has a [speed] that is present and equal to zero, the flight time
    is computed with 5 m/s, as it is when the [speed] is absent; and
    whatever the first waypoint holds, the divisor is not zero. *)
Theorem zero_speed_falls_back (first : Waypoint) (rest : list Waypoint) :
  (2 <= List.length (first :: rest))%nat ->
  (match speed first with Some s => is_zero s = true | None => True end) ->
  exists stats,
    calculateRouteStats (first :: rest) = Return stats
    /\ flightTime stats = Math_ceil (pathLength (first :: rest) / 5)
    /\ avgSpeed (first :: rest) = 5
    /\ forall w, is_zero (avgSpeed w) = false.
Proof.
  intros Hlen Hzero. rewrite calculateRouteStats_eq.
  destruct (Nat.ltb_spec (List.length (first :: rest)) 2) as [Hlt|_]; [lia|].
  assert (Havg : avgSpeed (first :: rest) = 5).
  { unfold avgSpeed, at_index, truthy. cbn [nth_error].
    destruct (speed first) as [s|]; [|reflexivity].
    rewrite Hzero. reflexivity. }
  eexists. split; [reflexivity|].
  cbn [flightTime]. rewrite Havg.
  repeat split. exact avgSpeed_nonzero.
Qed.

Lemma zero_speed_falls_back_witness :
  exists stats,
    calculateRouteStats (oneDegreeEast (Some 0)) = Return stats
    /\ flightTime stats = Math_ceil (pathLength (oneDegreeEast (Some 0)) / 5)
    /\ avgSpeed (oneDegreeEast (Some 0)) = 5
    /\ forall w, is_zero (avgSpeed w) = false.
Proof.
  apply (zero_speed_falls_back (waypointAt 0 0 (Some 0)) [waypointAt 0 1 (Some 0)]).
  - cbn. lia.
  - cbn. reflexivity.
Defined.

End StatsFacts.

(* ================================================================== *)
(** * Planar projection over the real numbers                          *)
(* ================================================================== *)

Module KernelFacts.
Local Open Scope R_scope.

Lemma EARTH_RADIUS_real : @EARTH_RADIUS R _ = 6378137.
Proof. reflexivity. Qed.

(** C7: over the real numbers, for every point [p] and origin [o]
    whose latitude has a non-zero cosine (the latitude taken in
    degrees, as the code does), unprojecting the projection of [p]
    gives [p] back. *)
Theorem unproject_project (p o : GeoPoint R) :
  cos (lat o * PI / 180) <> 0 ->
  unprojectFromMeters
    (px (projectToMeters (lat p) (lng p) o))
    (py (projectToMeters (lat p) (lng p) o)) o
  = p.
Proof.
  intros Hcos.
  destruct p as [plat plng], o as [olat olng].
  unfold unprojectFromMeters, projectToMeters.
  cbn [px py lat lng a_add a_sub a_mul a_div a_int a_pi a_cos R_Arith R_Trig] in *.
  rewrite EARTH_RADIUS_real.
  pose proof PI_neq0 as Hpi.
  f_equal; field; auto.
Qed.

Lemma unproject_project_witness :
  unprojectFromMeters
    (px (projectToMeters 1 2 {| lat := 0; lng := 0 |}))
    (py (projectToMeters 1 2 {| lat := 0; lng := 0 |}))
    {| lat := 0; lng := 0 |}
  = {| lat := 1; lng := 2 |}.
Proof.
  apply (unproject_project {| lat := 1; lng := 2 |} {| lat := 0; lng := 0 |}).
  cbn [lat].
  replace (0 * PI / 180) with 0 by (unfold Rdiv; ring).
  rewrite cos_0. apply R1_neq_R0.
Defined.

End KernelFacts.

(* ================================================================== *)
(** * Geodetic transform                                               *)
(* ================================================================== *)

Module TransformFacts.
Import Js CoordTransform Spec.
Local Open Scope float_scope.

(** Comparisons of binary64 values, read on their decodings. *)
Lemma SFcompare_swap (a b : spec_float) :
  SFcompare b a = option_map CompOpp (SFcompare a b).
Proof.
  destruct a as [sa|sa| |sa ma ea], b as [sb|sb| |sb mb eb]; cbn;
    try reflexivity;
    try (destruct sa; reflexivity);
    try (destruct sb; reflexivity);
    try (destruct sa, sb; reflexivity).
  f_equal.
  destruct sa, sb; try reflexivity;
    rewrite (Z.compare_antisym ea eb);
    destruct (ea ?= eb)%Z; cbn; try reflexivity;
    change (PosDef.Pos.compare_cont Eq mb ma)
      with (Pos.compare_cont (CompOpp Eq) mb ma);
    rewrite <- (Pos.compare_cont_antisym ma mb Eq); reflexivity.
Qed.

Lemma ltb_not_leb (x y : float) : (x <? y) = true -> (y <=? x) = false.
Proof.
  rewrite ltb_spec, leb_spec. unfold SFltb, SFleb.
  rewrite (SFcompare_swap (Prim2SF x) (Prim2SF y)).
  destruct (SFcompare (Prim2SF x) (Prim2SF y)) as [[| |]|]; cbn; congruence.
Qed.

(** A value below the lower end, or above the upper end, of an
    interval is not within it. *)
Lemma below_not_within (lo hi x : float) : (x <? lo) = true -> ~ within lo hi x.
Proof.
  intros Hlt [Hlo _]. rewrite (ltb_not_leb _ _ Hlt) in Hlo. discriminate.
Qed.

Lemma above_not_within (lo hi x : float) : (hi <? x) = true -> ~ within lo hi x.
Proof.
  intros Hlt [_ Hhi]. rewrite (ltb_not_leb _ _ Hlt) in Hhi. discriminate.
Qed.

Lemma isInChina_within (lng_ lat_ : float) :
  isInChina lng_ lat_ = true ->
  within 72.004 137.8347 lng_ /\ within 0.8293 55.8271 lat_.
Proof.
  unfold isInChina, within. intros Hin.
  apply andb_prop in Hin as [Hin H4].
  apply andb_prop in Hin as [Hin H3].
  apply andb_prop in Hin as [H1 H2].
  auto.
Qed.

Lemma sanity_check_PI : (4 <? Math_PI) = false.
Proof. vm_compute. reflexivity. Qed.

Lemma sanity_check_radius : (EARTH_RADIUS <? 0) = false.
Proof. vm_compute. reflexivity. Qed.

Section WithHost.
Context `{MathHost}.

(** C5: for every point whose longitude is outside [72.004, 137.8347]
    or whose latitude is outside [0.8293, 55.8271], [gcj02ToWgs84] and
    [wgs84ToGcj02] both return the point as it was given (and the
    latter warns of nothing). *)
Theorem identity_outside_region (lng_ lat_ : float) :
  ~ within 72.004 137.8347 lng_ \/ ~ within 0.8293 55.8271 lat_ ->
  gcj02ToWgs84 lng_ lat_ = Coordinates {| lat := lat_; lng := lng_ |}
  /\ wgs84ToGcj02 lng_ lat_ = ([], {| lat := lat_; lng := lng_ |}).
Proof.
  intros Hout.
  assert (Hin : isInChina lng_ lat_ = false).
  { destruct (isInChina lng_ lat_) eqn:Hin; [|reflexivity].
    apply isInChina_within in Hin as [Hlng Hlat].
    destruct Hout as [Hout|Hout]; contradiction. }
  unfold gcj02ToWgs84, wgs84ToGcj02.
  rewrite sanity_check_PI, sanity_check_radius, Hin. cbn [negb].
  split; reflexivity.
Qed.

End WithHost.

(** The scenario of the specification: a point in San Francisco. *)
Lemma identity_outside_region_witness :
  @gcj02ToWgs84 SeriesHost.host (-122.4) 37.7
  = Coordinates {| lat := 37.7; lng := -122.4 |}
  /\ @wgs84ToGcj02 SeriesHost.host (-122.4) 37.7
     = ([], {| lat := 37.7; lng := -122.4 |}).
Proof.
  apply (@identity_outside_region SeriesHost.host (-122.4) 37.7).
  left. apply below_not_within. vm_compute. reflexivity.
Defined.

End TransformFacts.

(* ================================================================== *)
(** * Path optimizer                                                   *)
(* ================================================================== *)

Module OptimizerFacts.
Import Js Route Spec.
Local Open Scope float_scope.

Lemma at_index_app {A} (pre rest : list A) (a : A) :
  at_index (pre ++ a :: rest) (List.length pre) = Some a.
Proof.
  unfold at_index. rewrite nth_error_app2, Nat.sub_diag by lia. reflexivity.
Qed.

(** The three reads of one round of the loop. *)
Lemma window (pre rest : list Planar) (prev curr next : Planar) :
  let w := pre ++ prev :: curr :: next :: rest in
  let i := S (List.length pre) in
  at_index w (i - 1) = Some prev
  /\ at_index w i = Some curr
  /\ at_index w (i + 1) = Some next.
Proof.
  cbn zeta. repeat split.
  - replace (S (List.length pre) - 1)%nat with (List.length pre) by lia.
    apply at_index_app.
  - rewrite <- (snoc_app pre (curr :: next :: rest) prev).
    rewrite <- (length_snoc pre prev). apply at_index_app.
  - rewrite <- (snoc_app pre (curr :: next :: rest) prev).
    rewrite <- (snoc_app (pre ++ [prev]) (next :: rest) curr).
    replace (S (List.length pre) + 1)%nat
      with (List.length ((pre ++ [prev]) ++ [curr])) by (rewrite !length_snoc; lia).
    apply at_index_app.
Qed.

Lemma keepIfTurning_step (pre rest : list Planar) (prev curr next : Planar)
  (optimized : list Planar) :
  keepIfTurning (pre ++ prev :: curr :: next :: rest) (S (List.length pre)) optimized
  = Return (if 0.01 <? crossMagnitude prev curr next
            then push optimized curr else optimized).
Proof.
  destruct (window pre rest prev curr next) as [Hprev [Hcurr Hnext]].
  unfold keepIfTurning, elem.
  rewrite Hprev, Hcurr, Hnext. cbn [bind].
  unfold crossMagnitude.
  destruct (0.01 <? _); reflexivity.
Qed.

Lemma retained_interior (pre rest : list Planar) (prev curr next : Planar) :
  retained (pre ++ prev :: curr :: next :: rest) (S (List.length pre))
  = (0.01 <? crossMagnitude prev curr next).
Proof.
  destruct (window pre rest prev curr next) as [Hprev [Hcurr Hnext]].
  unfold retained. rewrite Hprev, Hcurr, Hnext.
  replace (S (List.length pre) =? 0)%nat with false by reflexivity.
  replace (S (List.length pre)
           =? List.length (pre ++ prev :: curr :: next :: rest) - 1)%nat
    with false.
  - reflexivity.
  - symmetry. apply Nat.eqb_neq. rewrite length_app. cbn [List.length]. lia.
Qed.

(** The loop, from any interior position on, appends the retained
    points among the remaining interior ones. *)
Lemma optimizer_loop (w : list Planar) (lst : Planar) (mid : list Planar) :
  forall (pre : list Planar) (prev : Planar) (optimized : list Planar),
    w = pre ++ prev :: mid ++ [lst] ->
    for_range (S (List.length pre)) (List.length mid) (keepIfTurning w) optimized
    = Return (optimized
              ++ selectAt (retained w) (seq (S (List.length pre)) (List.length mid)) mid).
Proof.
  induction mid as [|curr mid IH]; intros pre prev optimized Hw.
  - cbn. rewrite app_nil_r. reflexivity.
  - assert (Hnext : exists next rest, mid ++ [lst] = next :: rest).
    { destruct mid as [|next mid']; cbn; eauto. }
    destruct Hnext as [next [rest Hnext]].
    assert (Hw' : w = pre ++ prev :: curr :: next :: rest).
    { rewrite Hw. cbn [app]. rewrite Hnext. reflexivity. }
    cbn [List.length for_range seq].
    unfold selectAt. cbn [combine filter].
    rewrite Hw' at 1 3. rewrite keepIfTurning_step, retained_interior.
    cbn [bind].
    rewrite <- (length_snoc pre prev).
    rewrite (IH (pre ++ [prev]) curr) by (rewrite snoc_app; exact Hw).
    unfold selectAt, push.
    destruct (0.01 <? crossMagnitude prev curr next); cbn [map snd].
    + rewrite <- app_assoc. reflexivity.
    + reflexivity.
Qed.


Lemma combine_snoc {A B} (l1 : list A) (l2 : list B) (a : A) (b : B) :
  List.length l1 = List.length l2 ->
  combine (l1 ++ [a]) (l2 ++ [b]) = combine l1 l2 ++ [(a, b)].
Proof.
  revert l2. induction l1 as [|x l1 IH]; intros [|y l2] Hlen;
    try discriminate; [reflexivity|].
  cbn. f_equal. apply IH. cbn in Hlen. lia.
Qed.

(** Selecting positions never adds or reorders elements. *)
Lemma selectAt_Subsequence {A} (keep : nat -> bool) (l : list A) :
  forall positions, List.length positions = List.length l ->
    Subsequence (selectAt keep positions l) l.
Proof.
  unfold selectAt.
  induction l as [|a l IH]; intros [|i positions] Hlen; try discriminate.
  - constructor.
  - cbn [combine filter]. destruct (keep i); cbn [map snd].
    + apply sub_keep. apply IH. cbn in Hlen. lia.
    + apply sub_drop. apply IH. cbn in Hlen. lia.
Qed.

(** A sequence of at most two points is retained whole. *)
Lemma selection_short (w : list Planar) :
  (List.length w <= 2)%nat -> selection w = w.
Proof.
  destruct w as [|a [|b [|c w]]]; cbn [List.length]; intros Hlen;
    try reflexivity; lia.
Qed.

(** A longer sequence keeps its two ends and the retained interior. *)
Lemma selection_long (first lst : Planar) (mid : list Planar) :
  let w := first :: mid ++ [lst] in
  selection w
  = first :: selectAt (retained w) (seq 1 (List.length mid)) mid ++ [lst].
Proof.
  cbn zeta. unfold selection.
  set (w := first :: mid ++ [lst]).
  assert (Hlen : List.length w = S (List.length mid + 1)).
  { unfold w. cbn [List.length]. rewrite length_app. reflexivity. }
  rewrite Hlen. cbn [seq]. rewrite seq_app.
  unfold w at 2. unfold selectAt.
  cbn [combine filter seq].
  rewrite combine_snoc by (rewrite length_seq; reflexivity).
  change (retained w 0) with true. cbn iota.
  rewrite filter_app. cbn [filter map snd]. rewrite map_app.
  assert (Hlast : retained w (1 + List.length mid) = true).
  { unfold retained. rewrite Hlen.
    replace (S (List.length mid + 1) - 1)%nat with (1 + List.length mid)%nat by lia.
    rewrite Nat.eqb_refl, orb_true_r. reflexivity. }
  rewrite Hlast. reflexivity.
Qed.

(** Every sequence with at least two points has a first point, a
    last point and what lies between. *)
Lemma ends (w : list Planar) :
  (2 <= List.length w)%nat -> exists first mid lst, w = first :: mid ++ [lst].
Proof.
  intros Hlen. destruct w as [|first rest]; [cbn in Hlen; lia|].
  destruct (exists_last (l := rest)) as [mid [lst Hrest]].
  - intros ->. cbn in Hlen. lia.
  - exists first, mid, lst. rewrite Hrest. reflexivity.
Qed.

(** The optimizer returns, and what it returns is the selection. *)
Lemma optimizeRoutePath_eq (w : list Planar) :
  optimizeRoutePath w = Return (selection w).
Proof.
  unfold optimizeRoutePath.
  destruct (Nat.leb_spec (List.length w) 2) as [Hshort|Hlong].
  - rewrite selection_short by exact Hshort. reflexivity.
  - destruct (ends w) as [first [mid [lst Hw]]]; [lia|].
    assert (Hlen : List.length w = S (List.length mid + 1)).
    { rewrite Hw. cbn [List.length]. rewrite length_app. reflexivity. }
    replace (List.length w - 2)%nat with (List.length mid) by lia.
    replace (List.length w - 1)%nat with (List.length ([first] ++ mid)).
    2:{ rewrite length_app. cbn [List.length]. lia. }
    assert (Hfirst : elem w 0 = Return first) by (rewrite Hw; reflexivity).
    assert (Hlst : elem w (List.length ([first] ++ mid)) = Return lst).
    { rewrite Hw.
      change (first :: mid ++ [lst]) with (([first] ++ mid) ++ [lst]).
      apply elem_app. }
    rewrite Hfirst. cbn [bind].
    change 1%nat with (S (List.length (@nil Planar))) at 1.
    rewrite (optimizer_loop w lst mid [] first [first]) by exact Hw.
    cbn [bind]. rewrite Hlst. cbn [bind].
    f_equal. clear Hfirst Hlst Hlen Hlong. subst w.
    rewrite selection_long. reflexivity.
Qed.

Lemma last_snoc {A} (l : list A) (a d : A) : last (l ++ [a]) d = a.
Proof. apply last_last. Qed.

(** At an interior position, being retained is the cross-product
    test and nothing else. *)
Lemma retained_iff (w : list Planar) (i : nat) (prev curr next : Planar) :
  (0 < i < List.length w - 1)%nat ->
  at_index w (i - 1) = Some prev ->
  at_index w i = Some curr ->
  at_index w (i + 1) = Some next ->
  retained w i = (0.01 <? crossMagnitude prev curr next).
Proof.
  intros [Hlo Hhi] Hprev Hcurr Hnext. unfold retained.
  rewrite Hprev, Hcurr, Hnext.
  destruct (Nat.eqb_spec i 0) as [->|_]; [lia|].
  destruct (Nat.eqb_spec i (List.length w - 1)) as [->|_]; [lia|].
  reflexivity.
Qed.

(** C4: on every planar point sequence the optimizer returns; its
    result is a subsequence of the input (same relative order, nothing
    inserted) with the same first and last elements; it consists of
    the first point, the last point and exactly those interior points
    at which the magnitude of the cross product of the incoming and
    outgoing displacements exceeds 0.01; and a sequence of length <= 2
    is returned unchanged. *)
Theorem optimizeRoutePath_spec (w : list Planar) :
  exists out,
    optimizeRoutePath w = Return out
    /\ out = selection w
    /\ (forall i prev curr next,
          (0 < i < List.length w - 1)%nat ->
          at_index w (i - 1) = Some prev ->
          at_index w i = Some curr ->
          at_index w (i + 1) = Some next ->
          retained w i = (0.01 <? crossMagnitude prev curr next))
    /\ Subsequence out w
    /\ hd_error out = hd_error w
    /\ (forall d, last out d = last w d)
    /\ ((List.length w <= 2)%nat -> out = w).
Proof.
  exists (selection w). split; [apply optimizeRoutePath_eq|].
  split; [reflexivity|].
  split; [apply retained_iff|].
  split; [apply selectAt_Subsequence; apply length_seq|].
  destruct (Nat.leb_spec (List.length w) 2) as [Hshort|Hlong].
  - rewrite selection_short by exact Hshort. auto.
  - destruct (ends w) as [first [mid [lst Hw]]]; [lia|].
    subst w. rewrite selection_long.
    split; [reflexivity|].
    split; [|cbn [List.length] in *; lia].
    intros d. rewrite !app_comm_cons, !last_snoc. reflexivity.
Qed.

(** On the corner path the collinear second point is dropped and the
    corner is kept. *)
Lemma optimizeRoutePath_spec_witness :
  exists out,
    optimizeRoutePath cornerPath = Return out
    /\ out = [ {| px := 0; py := 0 |}; {| px := 2; py := 0 |};
               {| px := 2; py := 1 |} ]
    /\ Subsequence out cornerPath.
Proof.
  destruct (optimizeRoutePath_spec cornerPath)
    as [out [Hrun [Hsel [_ [Hsub _]]]]].
  exists out. split; [exact Hrun|]. split; [|exact Hsub].
  rewrite Hsel. vm_compute. reflexivity.
Defined.

End OptimizerFacts.

(* ================================================================== *)
(** * Coverage route generator                                         *)
(* ================================================================== *)

Module GeneratorFacts.
Import Js Route Spec.
Local Open Scope float_scope.

(** The guard of lines 164-168 never fires. *)
Lemma constant_check :
  (@EARTH_RADIUS float _ =? 0) || (1e10 <? Math_abs EARTH_RADIUS) = false.
Proof. vm_compute. reflexivity. Qed.

Lemma nth_error_map_from {A B} (f : A -> nat -> B) (l : list A) :
  forall (start i : nat) (b : B),
    nth_error (map_from start f l) i = Some b ->
    exists a, nth_error l i = Some a /\ b = f a (start + i)%nat.
Proof.
  induction l as [|a l IH]; intros start i b Hnth.
  - destruct i; discriminate.
  - destruct i as [|i]; cbn in Hnth.
    + injection Hnth as <-. exists a. rewrite Nat.add_0_r. auto.
    + destruct (IH (S start) i b Hnth) as [a' [Ha' Hb]].
      exists a'. split; [exact Ha'|]. rewrite Hb. f_equal. lia.
Qed.

Section WithHost.
Context `{MathHost}.

Lemma shrinkPolygon_length (polygon : list Planar) (marginMeters : float) :
  List.length (shrinkPolygon polygon marginMeters) = List.length polygon.
Proof. unfold shrinkPolygon. apply length_map. Qed.

(** With at least three boundary points, the call logs no error and
    returns what the scan of some projected polygon returns. *)
Lemma generatePolygonRoute_long (fuel : nat) (boundaryPoints : list Geo)
  (options : RouteOptions) :
  (3 <= List.length boundaryPoints)%nat ->
  exists origin polygon finalSpacing,
    hd_error boundaryPoints = Some origin
    /\ generatePolygonRoute fuel boundaryPoints options
    = ([], scanRoute fuel origin polygon
             (default 0 (opt_angle options)) finalSpacing
             (default 50 (opt_height options))
             (default 5 (opt_speed options))
             (default true (opt_optimizePath options))).
Proof.
  intros Hlen. unfold generatePolygonRoute.
  rewrite constant_check.
  destruct (Nat.ltb_spec (List.length boundaryPoints) 3) as [Hlt|_]; [lia|].
  destruct boundaryPoints as [|origin rest]; [cbn in Hlen; lia|].
  change (elem (origin :: rest) 0) with (Return origin).
  cbv beta iota zeta.
  destruct (0 <? default 0 (opt_margin options)).
  - rewrite shrinkPolygon_length, length_map.
    destruct (Nat.ltb_spec (List.length (origin :: rest)) 3) as [Hlt|_]; [lia|].
    exists origin. do 2 eexists. split; reflexivity.
  - exists origin. do 2 eexists. split; reflexivity.
Qed.

(** Every element of a scan's result is a waypoint built at lines
    295-301. *)
Lemma scanRoute_items (fuel : nat) (origin : Geo) (polygon : list Planar)
  (angle finalSpacing height_ speed_ : float) (optimizePath : bool)
  (items : list RouteItem) :
  scanRoute fuel origin polygon angle finalSpacing height_ speed_ optimizePath
  = Return items ->
  forall (i : nat) (item : RouteItem),
    nth_error items i = Some item ->
    exists p : Planar,
      let raw := unprojectFromMeters (px p) (py p) origin in
      item = WaypointItem
               {| wlat := Number (toFixed (lat raw) 7);
                  wlng := Number (toFixed (lng raw) 7);
                  height := Some height_;
                  speed := Some speed_;
                  index := Some i |}.
Proof.
  unfold scanRoute. cbv zeta.
  destruct (scanLines _ _ _ _ _ _ _) as [waypoints| |]; cbn [bind]; try discriminate.
  match goal with
  | |- bind ?c _ = _ -> _ => destruct c as [optimized| |]; cbn [bind]; try discriminate
  end.
  intros Hret i item Hnth. injection Hret as <-.
  unfold map_indexed in Hnth.
  apply nth_error_map_from in Hnth as [p [_ ->]].
  exists p. reflexivity.
Qed.

(** With fewer than three boundary points the call logs the error of
    line 175 and returns the empty array. *)
Lemma generatePolygonRoute_short (fuel : nat) (boundaryPoints : list Geo)
  (options : RouteOptions) :
  (List.length boundaryPoints < 3)%nat ->
  generatePolygonRoute fuel boundaryPoints options
  = (["At least 3 boundary points required to generate polygon route"%string],
     Return []).
Proof.
  intros Hlen. unfold generatePolygonRoute.
  rewrite constant_check.
  destruct (Nat.ltb_spec (List.length boundaryPoints) 3) as [_|Hge]; [|lia].
  reflexivity.
Qed.

(** C3: for every boundary with fewer than 3 points, every
    configuration, every host and every iteration budget,
    [generatePolygonRoute] returns the empty array. *)
Theorem short_boundary_gives_no_route (fuel : nat) (boundaryPoints : list Geo)
  (options : RouteOptions) :
  (List.length boundaryPoints < 3)%nat ->
  snd (generatePolygonRoute fuel boundaryPoints options) = Return [].
Proof.
  intros Hlen. unfold generatePolygonRoute.
  rewrite constant_check.
  destruct (Nat.ltb_spec (List.length boundaryPoints) 3) as [_|Hge]; [|lia].
  reflexivity.
Qed.

(** C8: in every non-empty array that [generatePolygonRoute] returns,
    the element at position [i] is a waypoint whose [index] is [i],
    whose [height] and [speed] are the configured values (50 and 5
    when unset), and whose [lat] and [lng] are the coordinates
    unprojected about the first boundary point, rounded to 7 decimal
    places ([Number(x.toFixed(7))]). *)
Theorem waypoints_are_labelled (fuel : nat) (boundaryPoints : list Geo)
  (options : RouteOptions) (items : list RouteItem) :
  snd (generatePolygonRoute fuel boundaryPoints options) = Return items ->
  items <> [] ->
  forall (i : nat) (item : RouteItem),
    nth_error items i = Some item ->
    exists (origin : Geo) (p : Planar) (w : Waypoint),
      let raw := unprojectFromMeters (px p) (py p) origin in
      hd_error boundaryPoints = Some origin
      /\ item = WaypointItem w
      /\ index w = Some i
      /\ height w = Some (default 50 (opt_height options))
      /\ speed w = Some (default 5 (opt_speed options))
      /\ wlat w = Number (toFixed (lat raw) 7)
      /\ wlng w = Number (toFixed (lng raw) 7)
      /\ roundedTo 7 (lat raw) (wlat w)
      /\ roundedTo 7 (lng raw) (wlng w).
Proof.
  intros Hret Hnonempty.
  destruct (Nat.lt_ge_cases (List.length boundaryPoints) 3) as [Hshort|Hlong].
  - rewrite generatePolygonRoute_short in Hret by exact Hshort.
    injection Hret as <-. contradiction.
  - destruct (generatePolygonRoute_long fuel boundaryPoints options Hlong)
      as [origin [polygon [finalSpacing [Horigin Hrun]]]].
    rewrite Hrun in Hret. cbn [snd] in Hret.
    intros i item Hnth.
    destruct (scanRoute_items _ _ _ _ _ _ _ _ _ Hret i item Hnth) as [p Hitem].
    exists origin, p. eexists. cbv zeta.
    split; [exact Horigin|]. split; [exact Hitem|].
    cbn [index height speed wlat wlng].
    repeat split; apply NumberFacts.Number_toFixed_rounds; lia.
Qed.

(** C9: [shrinkPolygon] returns as many vertices as it is given;
    hence, for every boundary with at least 3 points and every margin
    > 0, [generatePolygonRoute] never takes the branch that reports
    'Polygon too small after applying margin'. *)
Theorem margin_branch_unreachable :
  (forall (polygon : list Planar) (marginMeters : float),
     List.length (shrinkPolygon polygon marginMeters) = List.length polygon)
  /\ (forall (fuel : nat) (boundaryPoints : list Geo) (options : RouteOptions)
        (margin : float),
        (3 <= List.length boundaryPoints)%nat ->
        opt_margin options = Some margin ->
        (0 <? margin) = true ->
        ~ In "Polygon too small after applying margin"%string
             (fst (generatePolygonRoute fuel boundaryPoints options))).
Proof.
  split; [exact shrinkPolygon_length|].
  intros fuel boundaryPoints options margin Hlen _ _.
  destruct (generatePolygonRoute_long fuel boundaryPoints options Hlen)
    as [origin [polygon [finalSpacing [_ Hrun]]]].
  rewrite Hrun. cbn [fst]. intros [].
Qed.

End WithHost.

Import SeriesHost.

Lemma short_boundary_gives_no_route_witness :
  (List.length twoPoints < 3)%nat
  /\ snd (@generatePolygonRoute SeriesHost.host 10 twoPoints squareOptions)
     = Return [].
Proof.
  split; [cbn; lia|].
  apply (@short_boundary_gives_no_route SeriesHost.host 10 twoPoints squareOptions).
  cbn. lia.
Defined.

(** The scenario of the specification: eight waypoints over the
    square, each labelled as C8 says. *)
Lemma waypoints_are_labelled_witness :
  exists items,
    snd (generatePolygonRoute 100 squareBoundary squareOptions) = Return items
    /\ List.length items = 8%nat
    /\ forall (i : nat) (item : RouteItem),
         nth_error items i = Some item ->
         exists w : Waypoint,
           item = WaypointItem w
           /\ index w = Some i
           /\ height w = Some 50
           /\ speed w = Some 5.
Proof.
  eexists. split; [vm_compute; reflexivity|].
  split; [reflexivity|].
  intros i item Hnth.
  edestruct (waypoints_are_labelled 100 squareBoundary squareOptions)
    as [origin [p [w [_ [Hitem [Hindex [Hheight [Hspeed _]]]]]]]];
    [vm_compute; reflexivity | discriminate | exact Hnth |].
  exists w. auto.
Defined.

Lemma margin_branch_unreachable_witness :
  (3 <= List.length squareBoundary)%nat
  /\ ~ In "Polygon too small after applying margin"%string
         (fst (@generatePolygonRoute SeriesHost.host 100 squareBoundary marginOptions)).
Proof.
  split; [cbn; lia|].
  apply (proj2 (@margin_branch_unreachable SeriesHost.host)
           100%nat squareBoundary marginOptions 10).
  - cbn. lia.
  - reflexivity.
  - vm_compute. reflexivity.
Defined.

End GeneratorFacts.

(* ================================================================== *)
(** * Polygon validation                                               *)
(* ================================================================== *)

Module ValidationFacts.
Import Js Route Reference.
Local Open Scope float_scope.

Lemma comparePair_step (front rest : list Geo) (p q : Geo) (i : nat) :
  elem (front ++ q :: rest) i = Return p ->
  comparePair (front ++ q :: rest) i (List.length front) tt
  = Return (if tooClose p q then inr false else inl tt).
Proof.
  intros Hp. unfold comparePair. rewrite Hp, elem_app. cbn [bind].
  unfold tooClose. destruct (_ && _); reflexivity.
Qed.

(** The inner loop, from any position on, looks for a point too close
    to [p] among the remaining ones. *)
Lemma inner_loop (p : Geo) (i : nat) (rest : list Geo) :
  forall front : list Geo,
    elem (front ++ rest) i = Return p ->
    for_range_ret (List.length front) (List.length rest)
      (comparePair (front ++ rest) i) tt
    = Return (if existsb (tooClose p) rest then inr false else inl tt).
Proof.
  induction rest as [|q rest IH]; intros front Hp; [reflexivity|].
  cbn [List.length for_range_ret existsb].
  rewrite (comparePair_step front rest p q i Hp). cbn [bind].
  destruct (tooClose p q); [reflexivity|]. cbn [orb].
  rewrite <- (length_snoc front q), <- (snoc_app front rest q).
  apply IH. rewrite snoc_app. exact Hp.
Qed.

Lemma compareFrom_step (front rest : list Geo) (p : Geo) :
  compareFrom (front ++ p :: rest) (List.length front) tt
  = Return (if existsb (tooClose p) rest then inr false else inl tt).
Proof.
  unfold compareFrom.
  replace (List.length (front ++ p :: rest) - (List.length front + 1))%nat
    with (List.length rest) by (rewrite length_app; cbn [List.length]; lia).
  replace (List.length front + 1)%nat with (List.length (front ++ [p]))
    by (rewrite length_snoc; lia).
  rewrite <- (snoc_app front rest p).
  apply inner_loop.
  rewrite snoc_app. apply elem_app.
Qed.

Lemma outer_loop (rest : list Geo) :
  forall front : list Geo,
    for_range_ret (List.length front) (List.length rest)
      (compareFrom (front ++ rest)) tt
    = Return (if anyClash rest then inr false else inl tt).
Proof.
  induction rest as [|p rest IH]; intros front; [reflexivity|].
  cbn [List.length for_range_ret anyClash].
  rewrite compareFrom_step. cbn [bind].
  destruct (existsb (tooClose p) rest); [reflexivity|]. cbn [orb].
  rewrite <- (length_snoc front p), <- (snoc_app front rest p).
  apply IH.
Qed.

Lemma isPolygonValid_eq (points : list Geo) :
  isPolygonValid points
  = Return ((3 <=? List.length points)%nat && negb (anyClash points)).
Proof.
  unfold isPolygonValid.
  destruct (Nat.ltb_spec (List.length points) 3) as [Hshort|Hlong].
  - destruct (Nat.leb_spec 3 (List.length points)); [lia|reflexivity].
  - destruct (Nat.leb_spec 3 (List.length points)); [|lia].
    pose proof (outer_loop points []) as Hloop. cbn [List.length app] in Hloop.
    rewrite Hloop. cbn [bind].
    destruct (anyClash points); reflexivity.
Qed.

Lemma existsb_tooClose_false (p : Geo) (rest : list Geo) :
  existsb (tooClose p) rest = false <->
  forall j q, nth_error rest j = Some q -> tooClose p q = false.
Proof.
  split.
  - intros Hex j q Hq. apply nth_error_In in Hq.
    destruct (tooClose p q) eqn:E; [|reflexivity].
    rewrite <- Hex. symmetry. apply existsb_exists. eauto.
  - intros Hall. destruct (existsb (tooClose p) rest) eqn:E; [|reflexivity].
    apply existsb_exists in E as [q [Hin Hq]].
    apply In_nth_error in Hin as [j Hj]. rewrite (Hall j q Hj) in Hq. discriminate.
Qed.

Lemma anyClash_false (points : list Geo) :
  anyClash points = false <->
  forall i j p q, (i < j)%nat ->
    nth_error points i = Some p -> nth_error points j = Some q ->
    tooClose p q = false.
Proof.
  induction points as [|a points IH].
  - split; [|reflexivity]. intros _ i j p q _ Hp. destruct i; discriminate.
  - cbn [anyClash]. rewrite orb_false_iff, existsb_tooClose_false, IH. split.
    + intros [Hhead Htail] i j p q Hij Hp Hq.
      destruct j as [|j]; [lia|]. cbn [nth_error] in Hq.
      destruct i as [|i]; cbn [nth_error] in Hp.
      * injection Hp as <-. exact (Hhead j q Hq).
      * exact (Htail i j p q ltac:(lia) Hp Hq).
    + intros Hall. split.
      * intros j q Hq. exact (Hall 0%nat (S j) a q ltac:(lia) eq_refl Hq).
      * intros i j p q Hij Hp Hq. exact (Hall (S i) (S j) p q ltac:(lia) Hp Hq).
Qed.

(** X1: [isPolygonValid] returns on every input, and it answers
    [true] exactly when there are at least three points and no two of
    them (at different positions) are closer than 0.000001 in both
    longitude and latitude. *)
Theorem isPolygonValid_spec (points : list Geo) :
  exists valid,
    isPolygonValid points = Return valid
    /\ (valid = true <->
        (3 <= List.length points)%nat
        /\ forall i j p q, (i < j)%nat ->
             nth_error points i = Some p -> nth_error points j = Some q ->
             tooClose p q = false).
Proof.
  rewrite isPolygonValid_eq. eexists. split; [reflexivity|].
  rewrite andb_true_iff, negb_true_iff, Nat.leb_le, anyClash_false. reflexivity.
Qed.

End ValidationFacts.

(* ================================================================== *)
(** * Kernel over the real numbers: rotation, projection, centre       *)
(* ================================================================== *)

Module RealKernelFacts.
Import RealReference.
Local Open Scope R_scope.

Ltac kernel_at_R :=
  cbn [px py lat lng default a_add a_sub a_mul a_div a_int a_pi a_cos a_sin
       R_Arith R_Trig] in *.

Lemma sin_cos_square (a : R) : sin a * sin a + cos a * cos a = 1.
Proof. pose proof (sin2_cos2 a) as E. unfold Rsqr in E. exact E. Qed.

(** X2: over the real numbers, rotating a point about a centre and
    then rotating the result by the opposite angle about the same
    centre (steps 5 and 9 of the generator) gives the point back. *)
Theorem rotatePoint_inverse (p center : PlanarPoint R) (angleRad : R) :
  rotatePoint (rotatePoint p angleRad (Some center)) (- angleRad) (Some center) = p.
Proof.
  destruct p as [x y], center as [cx cy].
  unfold rotatePoint. kernel_at_R.
  rewrite cos_neg, sin_neg.
  pose proof (sin_cos_square angleRad) as E.
  f_equal.
  - transitivity (cx + (x - cx) * (sin angleRad * sin angleRad + cos angleRad * cos angleRad));
      [ring | rewrite E; ring].
  - transitivity (cy + (y - cy) * (sin angleRad * sin angleRad + cos angleRad * cos angleRad));
      [ring | rewrite E; ring].
Qed.

(** X3: over the real numbers, [rotatePoint] keeps the distance
    between any two points and leaves the centre where it is. *)
Theorem rotatePoint_isometry (p q center : PlanarPoint R) (angleRad : R) :
  sqDistance (rotatePoint p angleRad (Some center))
             (rotatePoint q angleRad (Some center))
  = sqDistance p q
  /\ rotatePoint center angleRad (Some center) = center.
Proof.
  destruct p as [x y], q as [u v], center as [cx cy].
  unfold sqDistance, rotatePoint. kernel_at_R.
  pose proof (sin_cos_square angleRad) as E.
  split.
  - transitivity (((x - u) * (x - u) + (y - v) * (y - v))
                  * (sin angleRad * sin angleRad + cos angleRad * cos angleRad));
      [ring | rewrite E; ring].
  - f_equal; ring.
Qed.

(** X4: over the real numbers, projecting the unprojection of a
    planar point gives the planar point back, when the cosine of the
    origin latitude is not 0. *)
Theorem project_unproject (x y : R) (o : GeoPoint R) :
  cos (lat o * PI / 180) <> 0 ->
  projectToMeters
    (lat (unprojectFromMeters x y o))
    (lng (unprojectFromMeters x y o)) o
  = {| px := x; py := y |}.
Proof.
  intros Hcos. destruct o as [olat olng].
  unfold unprojectFromMeters, projectToMeters. kernel_at_R.
  change (@EARTH_RADIUS R _) with 6378137.
  pose proof PI_neq0 as Hpi.
  f_equal; field; auto.
Qed.

Lemma center_sums (polygon : list (PlanarPoint R)) (sx sy : R) :
  fold_left (fun '(sumX, sumY) p => (a_add sumX (px p), a_add sumY (py p)))
    polygon (sx, sy)
  = (sx + sumOfX polygon, sy + sumOfY polygon).
Proof.
  revert sx sy. induction polygon as [|p polygon IH]; intros sx sy.
  - cbn. rewrite !Rplus_0_r. reflexivity.
  - cbn [fold_left sumOfX sumOfY fold_right]. rewrite IH. kernel_at_R.
    rewrite !Rplus_assoc. reflexivity.
Qed.

(** X5: over the real numbers, the centre of a polygon with at least
    one vertex is the arithmetic mean of its vertices: multiplied by
    the number of vertices it gives the sum of their coordinates. *)
Theorem center_is_mean (polygon : list (PlanarPoint R)) :
  polygon <> [] ->
  let center := getPolygonCenter polygon in
  px center * INR (List.length polygon) = sumOfX polygon
  /\ py center * INR (List.length polygon) = sumOfY polygon.
Proof.
  intros Hne. cbn zeta. unfold getPolygonCenter.
  rewrite center_sums. kernel_at_R.
  rewrite <- INR_IZR_INZ.
  assert (Hn : INR (List.length polygon) <> 0).
  { apply not_0_INR. destruct polygon; [contradiction | discriminate]. }
  split; field; exact Hn.
Qed.

Lemma project_unproject_witness :
  projectToMeters
    (lat (unprojectFromMeters 3 4 {| lat := 0; lng := 0 |}))
    (lng (unprojectFromMeters 3 4 {| lat := 0; lng := 0 |}))
    {| lat := 0; lng := 0 |}
  = {| px := 3; py := 4 |}.
Proof.
  apply (project_unproject 3 4 {| lat := 0; lng := 0 |}).
  cbn [lat].
  replace (0 * PI / 180) with 0 by (unfold Rdiv; ring).
  rewrite cos_0. apply R1_neq_R0.
Defined.

Lemma center_is_mean_witness :
  let polygon := [ {| px := 0; py := 0 |}; {| px := 2; py := 4 |} ] in
  px (getPolygonCenter polygon) * INR (List.length polygon) = sumOfX polygon
  /\ py (getPolygonCenter polygon) * INR (List.length polygon) = sumOfY polygon.
Proof.
  apply (center_is_mean [ {| px := 0; py := 0 |}; {| px := 2; py := 4 |} ]).
  discriminate.
Defined.

End RealKernelFacts.

(* ================================================================== *)
(** * The scan: edges, pairs, outcomes                                 *)
(* ================================================================== *)

Module ScanFacts.
Import Js Route Spec Reference.
Local Open Scope float_scope.

(** One round of the edge loop: the edge that starts at position
    [length front] ends at the next vertex, or at the first vertex
    when it starts at the last one. *)
Lemma next_vertex (front rest : list Planar) (p1 : Planar) :
  let polygon := front ++ p1 :: rest in
  exists p2,
    elem polygon ((List.length front + 1) mod List.length polygon) = Return p2
    /\ combine (p1 :: rest) (rest ++ firstn 1 polygon)
       = (p1, p2) :: combine rest (tl rest ++ firstn 1 polygon).
Proof.
  cbn zeta. destruct rest as [|p2 rest].
  - replace (List.length (front ++ [p1])) with (List.length front + 1)%nat
      by (rewrite length_app; reflexivity).
    rewrite Nat.Div0.mod_same.
    destruct front as [|first front]; cbn [app firstn combine tl].
    + exists p1. split; reflexivity.
    + exists first. split; reflexivity.
  - exists p2. split.
    + rewrite Nat.mod_small by (rewrite length_app; cbn [List.length]; lia).
      apply elem_app_next.
    + reflexivity.
Qed.

Lemma edge_loop (polygon : list Planar) (y : float) (rest : list Planar) :
  forall (front : list Planar) (found : list float),
    polygon = front ++ rest ->
    for_range (List.length front) (List.length rest) (edgeStep polygon y) found
    = Return (found ++ flat_map (crossing y)
                         (combine rest (tl rest ++ firstn 1 polygon))).
Proof.
  induction rest as [|p1 rest IH]; intros front found Hpoly.
  - cbn. rewrite app_nil_r. reflexivity.
  - cbn [List.length for_range tl].
    destruct (next_vertex front rest p1) as [p2 [Hp2 Hedges]].
    rewrite <- Hpoly in Hp2, Hedges. rewrite Hedges.
    unfold edgeStep at 1. rewrite Hp2.
    rewrite Hpoly at 1. rewrite elem_app. cbn [bind flat_map crossing].
    rewrite <- (length_snoc front p1).
    destruct (_ || _); cbn [bind].
    + rewrite (IH (front ++ [p1])) by (rewrite snoc_app; exact Hpoly).
      unfold push. rewrite <- app_assoc. reflexivity.
    + rewrite (IH (front ++ [p1])) by (rewrite snoc_app; exact Hpoly).
      reflexivity.
Qed.

Lemma findIntersections_eq (polygon : list Planar) (y : float) :
  findIntersections polygon y = Return (flat_map (crossing y) (edges polygon)).
Proof.
  unfold findIntersections.
  change (for_range 0 (List.length polygon) (edgeStep polygon y) [] = 
          Return (flat_map (crossing y) (edges polygon))).
  apply (edge_loop polygon y polygon [] []). reflexivity.
Qed.


(** The pair loop, from any even position on. *)
Lemma pair_loop (isLeftToRight : bool) (y : float) (iterations : nat) :
  forall (rest front : list float) (waypoints : list Planar),
    (List.length rest <= iterations)%nat ->
    emitPairs iterations (List.length front) (front ++ rest) isLeftToRight y waypoints
    = waypoints ++ flat_map (sweep isLeftToRight y) (pairUp rest).
Proof.
  induction iterations as [|iterations IH]; intros rest front waypoints Hlen.
  - destruct rest; [|cbn in Hlen; lia]. cbn. rewrite app_nil_r. reflexivity.
  - cbn [emitPairs]. rewrite length_app.
    destruct rest as [|x1 [|x2 rest]]; cbn [List.length pairUp flat_map].
    + destruct (Nat.ltb_spec (List.length front) (List.length front + 0)); [lia|].
      rewrite app_nil_r. reflexivity.
    + destruct (Nat.ltb_spec (List.length front) (List.length front + 1)); [|lia].
      destruct (Nat.leb_spec (List.length front + 1) (List.length front + 1)); [|lia].
      rewrite app_nil_r. reflexivity.
    + destruct (Nat.ltb_spec (List.length front) (List.length front + S (S (List.length rest))));
        [|lia].
      destruct (Nat.leb_spec (List.length front + S (S (List.length rest)))
                             (List.length front + 1)); [lia|].
      assert (Hx1 : nth (List.length front) (front ++ x1 :: x2 :: rest) nan = x1).
      { rewrite app_nth2, Nat.sub_diag by lia. reflexivity. }
      assert (Hx2 : nth (List.length front + 1) (front ++ x1 :: x2 :: rest) nan = x2).
      { rewrite app_nth2 by lia.
        replace (List.length front + 1 - List.length front)%nat with 1%nat by lia.
        reflexivity. }
      rewrite Hx1, Hx2.
      replace (front ++ x1 :: x2 :: rest) with ((front ++ [x1; x2]) ++ rest)
        by (rewrite <- app_assoc; reflexivity).
      replace (List.length front + 2)%nat with (List.length (front ++ [x1; x2]))
        by (rewrite length_app; reflexivity).
      rewrite IH by (cbn [List.length] in Hlen; lia).
      unfold sweep at 2, push. destruct isLeftToRight;
        rewrite <- !app_assoc; reflexivity.
Qed.

Lemma emitPairs_eq (isLeftToRight : bool) (y : float) (xs : list float)
  (waypoints : list Planar) :
  emitPairs (List.length xs) 0 xs isLeftToRight y waypoints
  = waypoints ++ flat_map (sweep isLeftToRight y) (pairUp xs).
Proof. apply (pair_loop isLeftToRight y (List.length xs) xs [] waypoints). lia. Qed.

Lemma length_sweeps (isLeftToRight : bool) (y : float) (pairs : list (float * float)) :
  List.length (flat_map (sweep isLeftToRight y) pairs) = (2 * List.length pairs)%nat.
Proof.
  induction pairs as [|[x1 x2] pairs IH]; [reflexivity|].
  cbn [flat_map]. rewrite length_app, IH.
  unfold sweep. destruct isLeftToRight; cbn [List.length]; lia.
Qed.

Section Scan.
Context `{MathHost}.

(** The scan never throws, and it adds waypoints two by two. *)
Lemma scanLines_outcome (rotatedPolygon : list Planar) (finalSpacing maxY_ : float)
  (fuel : nat) :
  forall (currentY : float) (lineIndex : nat) (waypoints : list Planar),
    match scanLines fuel rotatedPolygon finalSpacing maxY_ currentY lineIndex waypoints with
    | Return result =>
        exists lines, List.length result = (List.length waypoints + 2 * lines)%nat
    | TypeError => False
    | OutOfFuel => True
    end.
Proof.
  induction fuel as [|fuel IH]; intros currentY lineIndex waypoints;
    cbn [scanLines]; destruct (currentY <=? maxY_); try exact I;
    try (exists 0%nat; lia).
  rewrite findIntersections_eq. cbn [bind]. rewrite emitPairs_eq.
  match goal with
  | |- match scanLines _ _ _ _ ?y ?l ?w with _ => _ end =>
      specialize (IH y l w); destruct (scanLines fuel rotatedPolygon finalSpacing maxY_ y l w)
  end; try exact IH.
  destruct IH as [lines Hlines].
  rewrite length_app, length_sweeps in Hlines.
  eexists. rewrite Hlines. rewrite <- Nat.add_assoc, <- Nat.mul_add_distr_l. reflexivity.
Qed.

End Scan.


Lemma length_map_from {A B} (f : A -> nat -> B) (l : list A) :
  forall start, List.length (map_from start f l) = List.length l.
Proof. induction l as [|a l IH]; intros start; [reflexivity|]. cbn. rewrite IH. reflexivity. Qed.

Lemma selection_at_least_two (w : list Planar) :
  (2 < List.length w)%nat -> (2 <= List.length (selection w))%nat.
Proof.
  intros Hlen. destruct (OptimizerFacts.ends w) as [first [mid [lst Hw]]]; [lia|].
  subst w. rewrite OptimizerFacts.selection_long.
  cbn [List.length]. rewrite length_app. cbn [List.length]. lia.
Qed.

Section WithHost.
Context `{MathHost}.

(** What a scan can end in: never an exception; and a returned route
    has an even number of waypoints unless the optimizer ran, in which
    case it has at least two. *)
Lemma scanRoute_outcome (fuel : nat) (origin : Geo) (polygon : list Planar)
  (angle finalSpacing height_ speed_ : float) (optimizePath : bool) :
  match scanRoute fuel origin polygon angle finalSpacing height_ speed_ optimizePath with
  | Return items =>
      List.length items <> 1%nat
      /\ (optimizePath = false -> exists lines, List.length items = (2 * lines)%nat)
  | TypeError => False
  | OutOfFuel => True
  end.
Proof.
  unfold scanRoute. cbv zeta.
  match goal with
  | |- context [scanLines ?f ?p ?s ?m ?y ?l ?w] =>
      pose proof (scanLines_outcome p s m f y l w) as Hscan;
      destruct (scanLines f p s m y l w) as [waypoints| |]
  end; cbn [bind]; try exact Hscan.
  destruct Hscan as [lines Hlines]. cbn [List.length] in Hlines.
  destruct (optimizePath && (4 <? List.length waypoints)%nat) eqn:Hgate.
  - rewrite OptimizerFacts.optimizeRoutePath_eq. cbn [bind].
    unfold map_indexed. rewrite length_map_from, length_map.
    apply andb_prop in Hgate as [Hopt Hlong]. apply Nat.ltb_lt in Hlong.
    pose proof (selection_at_least_two waypoints ltac:(lia)).
    split; [lia|]. intros ->. discriminate.
  - cbn [bind]. unfold map_indexed. rewrite length_map_from, length_map.
    split; [lia|]. intros _. exists lines. exact Hlines.
Qed.

(** X8: whatever the boundary, the options, the host and the budget,
    [generatePolygonRoute] does not throw: no array is read out of
    range in the edge loop, the pair loop or the optimizer. *)
Theorem generatePolygonRoute_never_throws (fuel : nat) (boundaryPoints : list Geo)
  (options : RouteOptions) :
  snd (generatePolygonRoute fuel boundaryPoints options) <> TypeError.
Proof.
  destruct (Nat.lt_ge_cases (List.length boundaryPoints) 3) as [Hshort|Hlong].
  - rewrite GeneratorFacts.generatePolygonRoute_short by exact Hshort. discriminate.
  - destruct (GeneratorFacts.generatePolygonRoute_long fuel boundaryPoints options Hlong)
      as [origin [polygon [finalSpacing [_ Hrun]]]].
    rewrite Hrun. cbn [snd].
    match goal with
    | |- ?run <> _ =>
        match run with
        | scanRoute ?f ?o ?p ?a ?s ?h ?v ?b =>
            pose proof (scanRoute_outcome f o p a s h v b) as Hout
        end
    end.
    intros E. rewrite E in Hout. exact Hout.
Qed.

(** X9: a returned route never has exactly one waypoint, and with
    [optimizePath] switched off it has an even number of them (two
    per pair of intersections). *)
Theorem route_length_shape (fuel : nat) (boundaryPoints : list Geo)
  (options : RouteOptions) (items : list RouteItem) :
  snd (generatePolygonRoute fuel boundaryPoints options) = Return items ->
  List.length items <> 1%nat
  /\ (opt_optimizePath options = Some false ->
      exists lines, List.length items = (2 * lines)%nat).
Proof.
  intros Hret.
  destruct (Nat.lt_ge_cases (List.length boundaryPoints) 3) as [Hshort|Hlong].
  - rewrite GeneratorFacts.generatePolygonRoute_short in Hret by exact Hshort.
    injection Hret as <-. split; [discriminate|]. intros _. exists 0%nat. reflexivity.
  - destruct (GeneratorFacts.generatePolygonRoute_long fuel boundaryPoints options Hlong)
      as [origin [polygon [finalSpacing [_ Hrun]]]].
    rewrite Hrun in Hret. cbn [snd] in Hret.
    match type of Hret with
    | scanRoute ?f ?o ?p ?a ?s ?h ?v ?b = _ =>
        pose proof (scanRoute_outcome f o p a s h v b) as Hout
    end.
    rewrite Hret in Hout. destruct Hout as [Hone Heven].
    split; [exact Hone|]. intros Hopt. apply Heven. rewrite Hopt. reflexivity.
Qed.

End WithHost.

Lemma route_length_shape_witness :
  exists items,
    snd (@generatePolygonRoute SeriesHost.host 100 squareBoundary squareOptions)
    = Return items
    /\ List.length items <> 1%nat
    /\ exists lines, List.length items = (2 * lines)%nat.
Proof.
  edestruct (@route_length_shape SeriesHost.host 100 squareBoundary squareOptions)
    as [Hone Heven]; [vm_compute; reflexivity|].
  eexists. split; [vm_compute; reflexivity|].
  split; [exact Hone | apply Heven; reflexivity].
Defined.

End ScanFacts.

(* ================================================================== *)
(** * Binary64 facts used below                                        *)
(* ================================================================== *)

Module FloatFacts.
Local Open Scope float_scope.

Lemma SFcompare_refl (a : spec_float) :
  a <> S754_nan -> SFcompare a a = Some Eq.
Proof.
  destruct a as [s|s| |s m e]; intros Hnan; cbn;
    try contradiction; try (destruct s; reflexivity).
  f_equal. destruct s; rewrite Z.compare_refl, Pos.compare_cont_refl; reflexivity.
Qed.

(** A NaN decodes as such. *)
Lemma is_nan_decode (x : float) : is_nan x = true -> Prim2SF x = S754_nan.
Proof.
  unfold is_nan. rewrite eqb_spec. unfold SFeqb. intros Hne.
  destruct (Prim2SF x) as [s|s| |s m e] eqn:E; try reflexivity;
    rewrite SFcompare_refl in Hne by discriminate; discriminate.
Qed.

Lemma decode_is_nan (x : float) : Prim2SF x = S754_nan -> is_nan x = true.
Proof.
  intros E. unfold is_nan. rewrite eqb_spec, E. reflexivity.
Qed.

(** A zero decodes as one. *)
Lemma is_zero_decode (x : float) : is_zero x = true -> exists s, Prim2SF x = S754_zero s.
Proof.
  unfold is_zero. rewrite eqb_spec. unfold SFeqb.
  change (Prim2SF zero) with (S754_zero false).
  destruct (Prim2SF x) as [s|s| |s m e]; cbn; eauto;
    try discriminate; destruct s; discriminate.
Qed.

(** NaN is absorbing for division and addition, and compares with
    nothing. *)
Lemma div_nan (x y : float) : is_nan x = true -> is_nan (x / y) = true.
Proof.
  intros Hx. apply decode_is_nan. rewrite div_spec, (is_nan_decode x Hx). reflexivity.
Qed.

Lemma add_nan (x y : float) : is_nan y = true -> is_nan (x + y) = true.
Proof.
  intros Hy. apply decode_is_nan. rewrite add_spec, (is_nan_decode y Hy).
  destruct (Prim2SF x); reflexivity.
Qed.

Lemma nan_leb (x y : float) : is_nan x = true -> (x <=? y) = false.
Proof.
  intros Hx. rewrite leb_spec, (is_nan_decode x Hx). reflexivity.
Qed.

(** Adding a zero does not move a value across a bound. *)
Lemma add_zero_leb (y z bound : float) :
  is_zero z = true -> (y <=? bound) = true -> (y + z <=? bound) = true.
Proof.
  intros Hz. destruct (is_zero_decode z Hz) as [sz Ez].
  rewrite !leb_spec, add_spec, Ez. unfold SFleb.
  destruct (Prim2SF y) as [sy|sy| |sy my ey]; cbn [SF64add SFadd]; try (intros E; exact E).
  destruct sy, sz; cbn; destruct (Prim2SF bound) as [sb|sb| |sb mb eb]; cbn; auto.
Qed.

End FloatFacts.

(* ================================================================== *)
(** * Degenerate spacings                                              *)
(* ================================================================== *)

Module SpacingFacts.
Import Js Route Spec Reference FloatFacts.
Local Open Scope float_scope.

(** Zero or NaN, on decodings and on values. *)
Lemma zero_or_nan_decode (x : float) :
  is_zero x = true \/ is_nan x = true <->
  (exists s, Prim2SF x = S754_zero s) \/ Prim2SF x = S754_nan.
Proof.
  split.
  - intros [Hz|Hn]; [left; apply is_zero_decode; exact Hz | right; apply is_nan_decode; exact Hn].
  - intros [[s E]|E].
    + left. unfold is_zero. rewrite eqb_spec, E. reflexivity.
    + right. apply decode_is_nan. exact E.
Qed.

Lemma mul_zero_or_nan (x z : float) :
  is_zero z = true \/ is_nan z = true ->
  is_zero (x * z) = true \/ is_nan (x * z) = true.
Proof.
  rewrite !zero_or_nan_decode, mul_spec. unfold SF64mul.
  intros [[s E]|E]; rewrite E; destruct (Prim2SF x); cbn; eauto.
Qed.

Section WithHost.
Context `{MathHost}.

(** With a spacing of zero the scan loop never ends once it has
    been entered: the scan line does not advance. *)
Lemma zero_spacing_never_ends (rotatedPolygon : list Planar)
  (finalSpacing maxY_ currentY : float) (lineIndex : nat) (waypoints : list Planar) :
  is_zero finalSpacing = true ->
  (currentY <=? maxY_) = true ->
  forall fuel,
    scanLines fuel rotatedPolygon finalSpacing maxY_ currentY lineIndex waypoints
    = OutOfFuel.
Proof.
  intros Hzero Hin fuel. revert currentY lineIndex waypoints Hin.
  induction fuel as [|fuel IH]; intros currentY lineIndex waypoints Hin;
    cbn [scanLines]; rewrite Hin; [reflexivity|].
  rewrite ScanFacts.findIntersections_eq. cbn [bind].
  apply IH. apply add_zero_leb; assumption.
Qed.

Lemma scanRoute_nan_spacing (fuel : nat) (origin : Geo) (polygon : list Planar)
  (angle finalSpacing height_ speed_ : float) (optimizePath : bool) :
  is_nan finalSpacing = true ->
  scanRoute fuel origin polygon angle finalSpacing height_ speed_ optimizePath
  = Return [].
Proof.
  intros Hnan. unfold scanRoute. cbv zeta.
  match goal with
  | |- context [scanLines ?f ?p ?s ?m ?y ?l ?w] =>
      assert (Hscan : scanLines f p s m y l w = Return [])
  end.
  { destruct fuel; cbn [scanLines];
      rewrite nan_leb by (apply add_nan, div_nan; exact Hnan); reflexivity. }
  rewrite Hscan. cbn [bind].
  destruct optimizePath; reflexivity.
Qed.

(** X13: with a manual spacing that is NaN, [generatePolygonRoute]
    returns the empty route, for every boundary and every budget: the
    first scan line is NaN and the loop is never entered. *)
Theorem nan_spacing_gives_no_route (fuel : nat) (boundaryPoints : list Geo)
  (options : RouteOptions) (spacing : float) :
  opt_spacing options = Some spacing ->
  is_nan spacing = true ->
  default false (opt_useCamera options) = false ->
  snd (generatePolygonRoute fuel boundaryPoints options) = Return [].
Proof.
  intros Hspacing Hnan Hmanual.
  destruct (Nat.lt_ge_cases (List.length boundaryPoints) 3) as [Hshort|Hlong].
  - rewrite GeneratorFacts.generatePolygonRoute_short by exact Hshort. reflexivity.
  - unfold generatePolygonRoute.
    rewrite GeneratorFacts.constant_check.
    destruct (Nat.ltb_spec (List.length boundaryPoints) 3) as [Hlt|_]; [lia|].
    destruct boundaryPoints as [|origin rest]; [cbn in Hlong; lia|].
    change (elem (origin :: rest) 0) with (Return origin).
    cbv beta iota zeta. rewrite Hmanual, Hspacing. cbn [default].
    destruct (0 <? default 0 (opt_margin options)).
    + rewrite GeneratorFacts.shrinkPolygon_length, length_map.
      destruct (Nat.ltb_spec (List.length (origin :: rest)) 3) as [Hlt|_]; [lia|].
      cbn [snd]. apply scanRoute_nan_spacing. exact Hnan.
    + cbn [snd]. apply scanRoute_nan_spacing. exact Hnan.
Qed.


(** With a spacing that is zero or NaN, a scan yields no waypoint:
    it returns the empty route whatever the budget, or it runs out of
    every budget. *)
Lemma scanRoute_degenerate (origin : Geo) (polygon : list Planar)
  (angle finalSpacing height_ speed_ : float) (optimizePath : bool) :
  is_zero finalSpacing = true \/ is_nan finalSpacing = true ->
  (forall fuel,
     scanRoute fuel origin polygon angle finalSpacing height_ speed_ optimizePath
     = Return [])
  \/ (forall fuel,
        scanRoute fuel origin polygon angle finalSpacing height_ speed_ optimizePath
        = OutOfFuel).
Proof.
  intros [Hzero|Hnan].
  2:{ left. intros fuel. apply scanRoute_nan_spacing. exact Hnan. }
  unfold scanRoute. cbv zeta.
  match goal with
  | |- context [scanLines _ ?p ?s ?m ?y ?l ?w] =>
      destruct (y <=? m) eqn:Hstart;
      [ right; intros fuel;
        rewrite (zero_spacing_never_ends p s m y l w Hzero Hstart fuel)
      | left; intros fuel;
        assert (Hscan : scanLines fuel p s m y l w = Return [])
          by (destruct fuel; cbn [scanLines]; rewrite Hstart; reflexivity);
        rewrite Hscan ]
  end; cbn [bind]; [reflexivity|].
  destruct optimizePath; reflexivity.
Qed.

(** With at least three boundary points, what the call does with its
    options, for every budget at once. *)
Lemma generatePolygonRoute_scan (boundaryPoints : list Geo) (options : RouteOptions) :
  (3 <= List.length boundaryPoints)%nat ->
  exists origin polygon,
    forall fuel,
      generatePolygonRoute fuel boundaryPoints options
      = ([], scanRoute fuel origin polygon
               (default 0 (opt_angle options))
               (if default false (opt_useCamera options)
                then match opt_camera options with
                     | Some camera =>
                         calculateSpacing (default 50 (opt_height options)) camera
                           (default 0.7 (opt_overlapRate options))
                           (Some "lateral"%string)
                     | None => default 30 (opt_spacing options)
                     end
                else default 30 (opt_spacing options))
               (default 50 (opt_height options))
               (default 5 (opt_speed options))
               (default true (opt_optimizePath options))).
Proof.
  intros Hlen.
  destruct boundaryPoints as [|origin rest]; [cbn in Hlen; lia|].
  exists origin.
  destruct (0 <? default 0 (opt_margin options)) eqn:Hmargin;
    eexists; intros fuel; unfold generatePolygonRoute;
    rewrite GeneratorFacts.constant_check;
    (destruct (Nat.ltb_spec (List.length (origin :: rest)) 3) as [Hlt|_]; [lia|]);
    change (elem (origin :: rest) 0) with (Return origin);
    cbv beta iota zeta; rewrite Hmargin.
  - rewrite GeneratorFacts.shrinkPolygon_length, length_map.
    destruct (Nat.ltb_spec (List.length (origin :: rest)) 3) as [Hlt|_]; [lia|].
    reflexivity.
  - reflexivity.
Qed.

Lemma degenerate_spacing_route (boundaryPoints : list Geo) (options : RouteOptions)
  (finalSpacing : float) :
  (if default false (opt_useCamera options)
   then match opt_camera options with
        | Some camera =>
            calculateSpacing (default 50 (opt_height options)) camera
              (default 0.7 (opt_overlapRate options)) (Some "lateral"%string)
        | None => default 30 (opt_spacing options)
        end
   else default 30 (opt_spacing options)) = finalSpacing ->
  is_zero finalSpacing = true \/ is_nan finalSpacing = true ->
  (forall fuel, snd (generatePolygonRoute fuel boundaryPoints options) = Return [])
  \/ (forall fuel, snd (generatePolygonRoute fuel boundaryPoints options) = OutOfFuel).
Proof.
  intros Hspacing Hdegenerate.
  destruct (Nat.lt_ge_cases (List.length boundaryPoints) 3) as [Hshort|Hlong].
  - left. intros fuel. rewrite GeneratorFacts.generatePolygonRoute_short by exact Hshort.
    reflexivity.
  - destruct (generatePolygonRoute_scan boundaryPoints options Hlong)
      as [origin [polygon Hrun]].
    rewrite Hspacing in Hrun.
    destruct (scanRoute_degenerate origin polygon (default 0 (opt_angle options))
                finalSpacing (default 50 (opt_height options))
                (default 5 (opt_speed options))
                (default true (opt_optimizePath options)) Hdegenerate) as [Hall|Hall];
      [left|right]; intros fuel; rewrite Hrun; cbn [snd]; apply Hall.
Qed.

(** X11: with a manual spacing of zero (+0 or -0),
    [generatePolygonRoute] never yields a waypoint: either it returns
    the empty route, or it does not terminate (it exhausts every
    budget). *)
Theorem zero_spacing_yields_no_waypoint (boundaryPoints : list Geo)
  (options : RouteOptions) (spacing : float) :
  opt_spacing options = Some spacing ->
  is_zero spacing = true ->
  default false (opt_useCamera options) = false ->
  (forall fuel, snd (generatePolygonRoute fuel boundaryPoints options) = Return [])
  \/ (forall fuel, snd (generatePolygonRoute fuel boundaryPoints options) = OutOfFuel).
Proof.
  intros Hspacing Hzero Hmanual.
  apply (degenerate_spacing_route boundaryPoints options spacing).
  - rewrite Hmanual, Hspacing. reflexivity.
  - left. exact Hzero.
Qed.


End WithHost.

Lemma nan_spacing_gives_no_route_witness :
  snd (@generatePolygonRoute SeriesHost.host 5 squareBoundary (spacingOptions nan))
  = Return [].
Proof.
  apply (@nan_spacing_gives_no_route SeriesHost.host 5 squareBoundary
           (spacingOptions nan) nan); reflexivity.
Defined.

Lemma zero_spacing_yields_no_waypoint_witness :
  (forall fuel,
     snd (@generatePolygonRoute SeriesHost.host fuel squareBoundary (spacingOptions 0))
     = Return [])
  \/ (forall fuel,
        snd (@generatePolygonRoute SeriesHost.host fuel squareBoundary (spacingOptions 0))
        = OutOfFuel).
Proof.
  apply (@zero_spacing_yields_no_waypoint SeriesHost.host squareBoundary
           (spacingOptions 0) 0); reflexivity.
Defined.


End SpacingFacts.

(* ================================================================== *)
(** * Geodetic transform: what the two directions share                *)
(* ================================================================== *)

Module TransformLaws.
Import Js CoordTransform.
Local Open Scope float_scope.

Section WithHost.
Context `{MathHost}.

(** X17: on every input, [gcj02ToWgs84] returns coordinates (never
    the [{ fallbackKey }] object) and [wgs84ToGcj02] warns of
    nothing. *)
Theorem transforms_return_coordinates (lng_ lat_ : float) :
  (exists p, gcj02ToWgs84 lng_ lat_ = Coordinates p)
  /\ fst (wgs84ToGcj02 lng_ lat_) = [].
Proof.
  unfold gcj02ToWgs84, wgs84ToGcj02.
  rewrite TransformFacts.sanity_check_PI, TransformFacts.sanity_check_radius.
  destruct (negb (isInChina lng_ lat_)); split; eauto.
Qed.

(** X18: inside the region, [gcj02ToWgs84] is [wgs84ToGcj02]
    mirrored about the input: each coordinate is twice the input
    minus what [wgs84ToGcj02] returns for the same input. *)
Theorem gcj02ToWgs84_mirrors_wgs84ToGcj02 (lng_ lat_ : float) :
  isInChina lng_ lat_ = true ->
  gcj02ToWgs84 lng_ lat_
  = Coordinates
      {| lng := lng_ * 2 - lng (snd (wgs84ToGcj02 lng_ lat_));
         lat := lat_ * 2 - lat (snd (wgs84ToGcj02 lng_ lat_)) |}.
Proof.
  intros Hin. unfold gcj02ToWgs84, wgs84ToGcj02.
  rewrite TransformFacts.sanity_check_PI, Hin. reflexivity.
Qed.

End WithHost.

Lemma gcj02ToWgs84_mirrors_wgs84ToGcj02_witness :
  @gcj02ToWgs84 SeriesHost.host 116.404 39.915
  = Coordinates
      {| lng := 116.404 * 2
                - lng (snd (@wgs84ToGcj02 SeriesHost.host 116.404 39.915));
         lat := 39.915 * 2
                - lat (snd (@wgs84ToGcj02 SeriesHost.host 116.404 39.915)) |}.
Proof.
  apply (@gcj02ToWgs84_mirrors_wgs84ToGcj02 SeriesHost.host 116.404 39.915).
  vm_compute. reflexivity.
Defined.

End TransformLaws.

(* ================================================================== *)
(** * The order of binary64 values and the bounding box                *)
(* ================================================================== *)

Module OrderFacts.
Local Open Scope float_scope.

Ltac by_signs :=
  repeat match goal with s : bool |- _ => destruct s end;
  cbn; try discriminate; try reflexivity.

Ltac by_order :=
  repeat match goal with
         | |- context [(?a ?= ?b)%Z] => destruct (Z.compare_spec a b); subst
         end;
  cbn; try discriminate; try reflexivity; try lia;
  change PosDef.Pos.compare_cont with Pos.compare_cont;
  repeat match goal with
         | |- context [Pos.compare_cont Eq ?a ?b] =>
             change (Pos.compare_cont Eq a b) with (Pos.compare a b);
             destruct (Pos.compare_spec a b); subst
         end;
  cbn; try discriminate; try reflexivity; try lia.

Lemma SFleb_trans (a b c : spec_float) :
  SFleb a b = true -> SFleb b c = true -> SFleb a c = true.
Proof.
  unfold SFleb.
  destruct a as [sa|sa| |sa ma ea], b as [sb|sb| |sb mb eb], c as [sc|sc| |sc mc ec];
    cbn; try discriminate; try reflexivity; by_signs; by_order.
Qed.


Lemma leb_trans (x y z : float) :
  (x <=? y) = true -> (y <=? z) = true -> (x <=? z) = true.
Proof. rewrite !leb_spec. apply SFleb_trans. Qed.

Lemma not_nan_decode (x : float) : is_nan x = false -> Prim2SF x <> S754_nan.
Proof.
  intros Hx E. unfold is_nan in Hx. rewrite eqb_spec, E in Hx. discriminate.
Qed.

Lemma SFcompare_some (a b : spec_float) :
  a <> S754_nan -> b <> S754_nan -> exists c, SFcompare a b = Some c.
Proof.
  destruct a as [sa|sa| |sa ma ea], b as [sb|sb| |sb mb eb]; intros Ha Hb;
    try contradiction; cbn; eauto.
Qed.

(** On values that are not NaN the order is total: [Math.min] and
    [Math.max] pick one of their arguments, below (above) both. *)
Lemma order_cases (x y : float) :
  is_nan x = false -> is_nan y = false ->
  ((x <? y) = true /\ (x <=? y) = true)
  \/ ((y <? x) = true /\ (y <=? x) = true)
  \/ ((x <? y) = false /\ (y <? x) = false /\ (x <=? y) = true /\ (y <=? x) = true).
Proof.
  intros Hx Hy. apply not_nan_decode in Hx, Hy.
  rewrite !ltb_spec, !leb_spec. unfold SFltb, SFleb.
  rewrite (TransformFacts.SFcompare_swap (Prim2SF x) (Prim2SF y)).
  destruct (SFcompare_some _ _ Hx Hy) as [[| |] ->]; cbn; auto 6.
Qed.

Lemma leb_refl (x : float) : is_nan x = false -> (x <=? x) = true.
Proof.
  intros Hx. destruct (order_cases x x Hx Hx) as [[_ H]|[[_ H]|[_ [_ [H _]]]]]; exact H.
Qed.

Lemma Math_min_below (a b : float) :
  is_nan a = false -> is_nan b = false ->
  is_nan (Js.Math_min a b) = false
  /\ (Js.Math_min a b <=? a) = true /\ (Js.Math_min a b <=? b) = true.
Proof.
  intros Ha Hb. unfold Js.Math_min. rewrite Ha, Hb. cbn [orb].
  pose proof (leb_refl a Ha). pose proof (leb_refl b Hb).
  destruct (order_cases a b Ha Hb) as [[Hlt Hle]|[[Hlt Hle]|[Hab [Hba [Hle Hge]]]]].
  - rewrite Hlt. auto.
  - destruct (a <? b) eqn:Hab; [|rewrite Hlt; auto].
    rewrite (TransformFacts.ltb_not_leb _ _ Hab) in Hle. discriminate.
  - rewrite Hab, Hba. destruct (get_sign a); auto.
Qed.

Lemma Math_max_above (a b : float) :
  is_nan a = false -> is_nan b = false ->
  is_nan (Js.Math_max a b) = false
  /\ (a <=? Js.Math_max a b) = true /\ (b <=? Js.Math_max a b) = true.
Proof.
  intros Ha Hb. unfold Js.Math_max. rewrite Ha, Hb. cbn [orb].
  pose proof (leb_refl a Ha). pose proof (leb_refl b Hb).
  destruct (order_cases a b Ha Hb) as [[Hlt Hle]|[[Hlt Hle]|[Hab [Hba [Hle Hge]]]]].
  - rewrite Hlt. auto.
  - destruct (a <? b) eqn:Hab; [|rewrite Hlt; auto].
    rewrite (TransformFacts.ltb_not_leb _ _ Hab) in Hle. discriminate.
  - rewrite Hab, Hba. destruct (get_sign a); auto.
Qed.

End OrderFacts.

Module BoxFacts.
Import Js Route Reference OrderFacts.
Local Open Scope float_scope.

Lemma fold_min (xs : list float) :
  forall m0, is_nan m0 = false ->
    Forall (fun x => is_nan x = false) xs ->
    let m := fold_left Math_min xs m0 in
    is_nan m = false /\ (m <=? m0) = true /\ forall x, In x xs -> (m <=? x) = true.
Proof.
  induction xs as [|x xs IH]; intros m0 Hm0 Hxs; cbn zeta.
  - cbn. repeat split; [exact Hm0 | apply leb_refl; exact Hm0 | contradiction].
  - inversion Hxs as [|? ? Hx Hrest]; subst.
    destruct (Math_min_below m0 x Hm0 Hx) as [Hnan [Hle0 Hlex]].
    destruct (IH (Math_min m0 x) Hnan Hrest) as [Hnan' [Hle' Hall]].
    cbn [fold_left]. split; [exact Hnan'|]. split.
    + apply leb_trans with (Math_min m0 x); assumption.
    + intros y [<-|Hy]; [|exact (Hall y Hy)].
      apply leb_trans with (Math_min m0 x); assumption.
Qed.

Lemma fold_max (xs : list float) :
  forall m0, is_nan m0 = false ->
    Forall (fun x => is_nan x = false) xs ->
    let m := fold_left Math_max xs m0 in
    is_nan m = false /\ (m0 <=? m) = true /\ forall x, In x xs -> (x <=? m) = true.
Proof.
  induction xs as [|x xs IH]; intros m0 Hm0 Hxs; cbn zeta.
  - cbn. repeat split; [exact Hm0 | apply leb_refl; exact Hm0 | contradiction].
  - inversion Hxs as [|? ? Hx Hrest]; subst.
    destruct (Math_max_above m0 x Hm0 Hx) as [Hnan [Hle0 Hlex]].
    destruct (IH (Math_max m0 x) Hnan Hrest) as [Hnan' [Hle' Hall]].
    cbn [fold_left]. split; [exact Hnan'|]. split.
    + apply leb_trans with (Math_max m0 x); assumption.
    + intros y [<-|Hy]; [|exact (Hall y Hy)].
      apply leb_trans with (Math_max m0 x); assumption.
Qed.

(** Each field of the box is the fold of its own coordinate. *)
Lemma box_fields (polygon : list Planar) :
  forall box,
    minX (fold_left extend polygon box) = fold_left Math_min (map px polygon) (minX box)
    /\ minY (fold_left extend polygon box) = fold_left Math_min (map py polygon) (minY box)
    /\ maxX (fold_left extend polygon box) = fold_left Math_max (map px polygon) (maxX box)
    /\ maxY (fold_left extend polygon box) = fold_left Math_max (map py polygon) (maxY box).
Proof.
  induction polygon as [|p polygon IH]; intros box; [cbn; auto|].
  cbn [fold_left map]. destruct (IH (extend box p)) as [H1 [H2 [H3 H4]]].
  rewrite H1, H2, H3, H4. cbn [extend minX minY maxX maxY]. auto.
Qed.

Lemma numeric_coordinates (polygon : list Planar) :
  Forall numeric polygon ->
  Forall (fun x => is_nan x = false) (map px polygon)
  /\ Forall (fun y => is_nan y = false) (map py polygon).
Proof.
  intros Hall. split; apply Forall_map; eapply Forall_impl; try exact Hall;
    intros p [Hx Hy]; assumption.
Qed.

(** X14: when no vertex has a NaN coordinate, every vertex of the
    polygon lies in the box that [getBoundingBox] returns. *)
Theorem getBoundingBox_contains (polygon : list Planar) (p : Planar) :
  Forall numeric polygon ->
  In p polygon ->
  inside (getBoundingBox polygon) p.
Proof.
  intros Hnum Hin. unfold getBoundingBox.
  change (inside (fold_left extend polygon
                    {| minX := infinity; minY := infinity;
                       maxX := neg_infinity; maxY := neg_infinity |}) p).
  destruct (box_fields polygon
              {| minX := infinity; minY := infinity;
                 maxX := neg_infinity; maxY := neg_infinity |}) as [H1 [H2 [H3 H4]]].
  destruct (numeric_coordinates polygon Hnum) as [Hxs Hys].
  unfold inside. rewrite H1, H2, H3, H4. cbn [minX minY maxX maxY].
  pose proof (in_map px polygon p Hin) as Hpx.
  pose proof (in_map py polygon p Hin) as Hpy.
  destruct (fold_min (map px polygon) infinity eq_refl Hxs) as [_ [_ Hminx]].
  destruct (fold_min (map py polygon) infinity eq_refl Hys) as [_ [_ Hminy]].
  destruct (fold_max (map px polygon) neg_infinity eq_refl Hxs) as [_ [_ Hmaxx]].
  destruct (fold_max (map py polygon) neg_infinity eq_refl Hys) as [_ [_ Hmaxy]].
  auto.
Qed.

Lemma getBoundingBox_contains_witness :
  inside (getBoundingBox unitSquare) {| px := 1; py := 1 |}.
Proof.
  apply (getBoundingBox_contains unitSquare {| px := 1; py := 1 |}).
  - repeat constructor.
  - cbn. auto.
Defined.

End BoxFacts.

(* ================================================================== *)
(** * Path optimizer: lengths and level points                         *)
(* ================================================================== *)

Module OptimizerLaws.
Import Js Route Spec Reference FloatFacts SpacingFacts.
Local Open Scope float_scope.

Lemma Subsequence_length {A} (l1 l2 : list A) :
  Subsequence l1 l2 -> (List.length l1 <= List.length l2)%nat.
Proof. induction 1; cbn [List.length]; lia. Qed.

(** X15: the optimizer returns at most as many points as it is
    given, and at least two of them when it is given two or more. *)
Theorem optimizeRoutePath_length (w : list Planar) :
  exists out,
    optimizeRoutePath w = Return out
    /\ (List.length out <= List.length w)%nat
    /\ (Nat.min 2 (List.length w) <= List.length out)%nat.
Proof.
  exists (selection w). split; [apply OptimizerFacts.optimizeRoutePath_eq|].
  split.
  - apply Subsequence_length, OptimizerFacts.selectAt_Subsequence, length_seq.
  - destruct (Nat.leb_spec (List.length w) 2) as [Hshort|Hlong].
    + rewrite OptimizerFacts.selection_short by exact Hshort. lia.
    + pose proof (ScanFacts.selection_at_least_two w Hlong). lia.
Qed.

(** The difference of a value with itself is a zero or NaN. *)
Lemma sub_self (y : float) : is_zero (y - y) = true \/ is_nan (y - y) = true.
Proof.
  rewrite zero_or_nan_decode, sub_spec. unfold SF64sub.
  destruct (Prim2SF y) as [s|s| |s m e]; cbn [SFsub].
  - destruct s; eauto.
  - destruct s; eauto.
  - eauto.
  - rewrite Z.sub_diag. cbn. eauto.
Qed.

Lemma mul_zero_or_nan_l (z x : float) :
  is_zero z = true \/ is_nan z = true ->
  is_zero (z * x) = true \/ is_nan (z * x) = true.
Proof.
  rewrite !zero_or_nan_decode, mul_spec. unfold SF64mul.
  intros [[s E]|E]; rewrite E; destruct (Prim2SF x); cbn; eauto.
Qed.

Lemma sub_zero_or_nan (a b : float) :
  is_zero a = true \/ is_nan a = true ->
  is_zero b = true \/ is_nan b = true ->
  is_zero (a - b) = true \/ is_nan (a - b) = true.
Proof.
  rewrite !zero_or_nan_decode, sub_spec. unfold SF64sub.
  intros [[sa Ea]|Ea] [[sb Eb]|Eb]; rewrite Ea, Eb; cbn; eauto.
  destruct sa, sb; eauto.
Qed.

Lemma tolerance_above_zero_or_nan (a : float) :
  is_zero a = true \/ is_nan a = true -> (0.01 <? Math_abs a) = false.
Proof.
  rewrite zero_or_nan_decode. unfold Math_abs. rewrite ltb_spec, abs_spec.
  intros [[s E]|E]; rewrite E; reflexivity.
Qed.

(** Three points at the same height have no cross product to speak
    of. *)
Lemma level_cross (prev curr next : Planar) :
  py prev = py curr -> py curr = py next ->
  (0.01 <? crossMagnitude prev curr next) = false.
Proof.
  intros E1 E2. unfold crossMagnitude. rewrite E1, <- E2.
  apply tolerance_above_zero_or_nan, sub_zero_or_nan.
  - apply mul_zero_or_nan, sub_self.
  - apply mul_zero_or_nan_l, sub_self.
Qed.


Lemma combine_app {A B} (l1 l1' : list A) (l2 l2' : list B) :
  List.length l1 = List.length l2 ->
  combine (l1 ++ l1') (l2 ++ l2') = combine l1 l2 ++ combine l1' l2'.
Proof.
  revert l2. induction l1 as [|a l1 IH]; intros [|b l2] Hlen; try discriminate;
    [reflexivity|].
  cbn. f_equal. apply IH. cbn in Hlen. lia.
Qed.

Lemma selectAt_app {A} (keep : nat -> bool) (pos1 pos2 : list nat) (l1 l2 : list A) :
  List.length pos1 = List.length l1 ->
  selectAt keep (pos1 ++ pos2) (l1 ++ l2)
  = selectAt keep pos1 l1 ++ selectAt keep pos2 l2.
Proof.
  intros Hlen. unfold selectAt.
  rewrite combine_app by exact Hlen. rewrite filter_app, map_app. reflexivity.
Qed.

Lemma Subsequence_app {A} (a1 l1 a2 l2 : list A) :
  Subsequence a1 l1 -> Subsequence a2 l2 -> Subsequence (a1 ++ a2) (l1 ++ l2).
Proof.
  intros H1 H2. induction H1; cbn [app]; [exact H2 | apply sub_keep | apply sub_drop];
    assumption.
Qed.

(** X16: a point whose two neighbours have the same [y] as itself
    (three consecutive points on one scan line) is always removed:
    the result is a subsequence of the input without that point. *)
Theorem level_point_is_removed (pre post : list Planar) (prev curr next : Planar) :
  py prev = py curr -> py curr = py next ->
  exists out,
    optimizeRoutePath (pre ++ prev :: curr :: next :: post) = Return out
    /\ Subsequence out (pre ++ prev :: next :: post).
Proof.
  intros E1 E2. eexists. split; [apply OptimizerFacts.optimizeRoutePath_eq|].
  unfold selection.
  set (w := pre ++ prev :: curr :: next :: post).
  assert (Hdrop : retained w (S (List.length pre)) = false).
  { unfold w. rewrite OptimizerFacts.retained_interior. apply level_cross; assumption. }
  assert (Hlen : List.length w
                 = (List.length (pre ++ [prev]) + S (List.length (next :: post)))%nat).
  { unfold w. rewrite !length_app. cbn [List.length]. lia. }
  rewrite Hlen, seq_app. cbn [seq].
  replace w with ((pre ++ [prev]) ++ curr :: next :: post) at 2
    by (unfold w; rewrite snoc_app; reflexivity).
  rewrite selectAt_app by apply length_seq.
  unfold selectAt at 2. cbn [combine filter].
  rewrite Nat.add_0_l, length_snoc. rewrite Hdrop.
  replace (pre ++ prev :: next :: post) with ((pre ++ [prev]) ++ next :: post)
    by (rewrite snoc_app; reflexivity).
  apply Subsequence_app; apply OptimizerFacts.selectAt_Subsequence;
    rewrite length_seq, ?length_snoc; reflexivity.
Qed.

Lemma level_point_is_removed_witness :
  exists out,
    optimizeRoutePath cornerPath = Return out
    /\ Subsequence out
         [ {| px := 0; py := 0 |}; {| px := 2; py := 0 |}; {| px := 2; py := 1 |} ].
Proof.
  apply (level_point_is_removed [] [ {| px := 2; py := 1 |} ]
           {| px := 0; py := 0 |} {| px := 1; py := 0 |} {| px := 2; py := 0 |});
    reflexivity.
Defined.

End OptimizerLaws.

(* ================================================================== *)
(** * Edges of the polygon                                             *)
(* ================================================================== *)

Module EdgeFacts.
Import Js Route Reference OrderFacts.
Local Open Scope float_scope.

(** Values that compare equal compare alike with any third value. *)
Lemma SFcompare_equal (a b y : spec_float) :
  SFeqb a b = true -> SFcompare a y = SFcompare b y /\ SFcompare y a = SFcompare y b.
Proof.
  unfold SFeqb.
  destruct a as [sa|sa| |sa ma ea], b as [sb|sb| |sb mb eb];
    cbn; try discriminate; by_signs;
    try (destruct y as [sy|sy| |sy my ey]; split; by_signs; fail).
  all: destruct (Z.compare_spec ea eb); try discriminate; subst;
    change PosDef.Pos.compare_cont with Pos.compare_cont;
    change (Pos.compare_cont Eq ma mb) with (Pos.compare ma mb);
    destruct (Pos.compare_spec ma mb); try discriminate; subst; auto.
Qed.

Lemma level_edge (y : float) (p1 p2 : Planar) :
  (py p1 =? py p2) = true -> crossing y (p1, p2) = [].
Proof.
  rewrite eqb_spec. intros Heq.
  destruct (SFcompare_equal _ _ (Prim2SF y) Heq) as [Hleft Hright].
  unfold crossing.
  assert (Hle : (py p1 <=? y) = (py p2 <=? y))
    by (rewrite !leb_spec; unfold SFleb; rewrite Hleft; reflexivity).
  assert (Hlt : (y <? py p1) = (y <? py p2))
    by (rewrite !ltb_spec; unfold SFltb; rewrite Hright; reflexivity).
  rewrite Hle, Hlt.
  destruct (y <? py p2) eqn:E.
  - rewrite (TransformFacts.ltb_not_leb _ _ E). reflexivity.
  - rewrite andb_false_r. reflexivity.
Qed.

Lemma length_crossings (y : float) (es : list (Planar * Planar)) :
  (List.length (flat_map (crossing y) es) <= List.length es)%nat.
Proof.
  induction es as [|[p1 p2] es IH]; [reflexivity|].
  cbn [flat_map]. rewrite length_app. unfold crossing at 1.
  destruct (_ || _); cbn [List.length]; lia.
Qed.

Lemma length_edges (polygon : list Planar) :
  List.length (edges polygon) = List.length polygon.
Proof.
  unfold edges. rewrite length_combine, length_app.
  destruct polygon as [|p polygon]; [reflexivity|].
  cbn [tl firstn List.length]. lia.
Qed.

(** X6: the edge loop returns, on every polygon and scan line, the
    crossings of the polygon's edges in order: each vertex paired with
    the next one and the last vertex with the first.  There is at most
    one crossing per edge, and an edge whose two ends have equal [y]
    gives none, so the interpolation never meets an edge of zero
    height. *)
Theorem findIntersections_spec (polygon : list Planar) (y : float) :
  exists xs,
    findIntersections polygon y = Return xs
    /\ xs = flat_map (crossing y) (edges polygon)
    /\ (List.length xs <= List.length polygon)%nat
    /\ forall p1 p2, (py p1 =? py p2) = true -> crossing y (p1, p2) = [].
Proof.
  eexists. split; [apply ScanFacts.findIntersections_eq|].
  split; [reflexivity|]. split.
  - rewrite <- (length_edges polygon). apply length_crossings.
  - intros p1 p2. apply level_edge.
Qed.

Section WithHost.
Context `{MathHost}.

Lemma waypointsOf_length (items : list RouteItem) :
  (forall i item, nth_error items i = Some item -> exists w, item = WaypointItem w) ->
  List.length (waypointsOf items) = List.length items.
Proof.
  induction items as [|item items IH]; intros Hall; [reflexivity|].
  destruct (Hall 0%nat item eq_refl) as [w ->].
  cbn [waypointsOf flat_map app List.length]. f_equal.
  apply IH. intros i it Hit. exact (Hall (S i) it Hit).
Qed.

End WithHost.
End EdgeFacts.

(* ================================================================== *)
(** * The sign of a difference                                         *)
(* ================================================================== *)

Module SubtractionFacts.
Import Reference.
Local Open Scope Z_scope.

(** The number of binary digits of a mantissa. *)
Lemma digits2_bounds (p : positive) :
  2 ^ (Zpos (digits2_pos p) - 1) <= Zpos p < 2 ^ Zpos (digits2_pos p).
Proof.
  induction p as [p IH|p IH|]; cbn [digits2_pos]; [| |cbn; lia].
  - rewrite Pos2Z.inj_succ.
    replace (Z.succ (Zpos (digits2_pos p)) - 1) with (Z.succ (Zpos (digits2_pos p) - 1)) by lia.
    rewrite !Z.pow_succ_r by lia. lia.
  - rewrite Pos2Z.inj_succ.
    replace (Z.succ (Zpos (digits2_pos p)) - 1) with (Z.succ (Zpos (digits2_pos p) - 1)) by lia.
    rewrite !Z.pow_succ_r by lia. lia.
Qed.

(** Shifting a mantissa to the right halves it. *)
Lemma shr_1_m (r : shr_record) :
  0 <= shr_m r -> shr_m (shr_1 r) = shr_m r / 2.
Proof.
  destruct r as [m r s]. cbn [shr_m]. intros Hm.
  destruct m as [|[p|p|]|p]; cbn [shr_1 shr_m]; try reflexivity; try lia.
  - apply Z.div_unique with (r := 1); lia.
  - apply Z.div_unique with (r := 0); lia.
Qed.

Lemma shr_iter_m (p : positive) (r : shr_record) :
  0 <= shr_m r -> shr_m (SpecFloat.iter_pos shr_1 p r) = shr_m r / 2 ^ Zpos p.
Proof.
  revert r. induction p as [p IH|p IH|]; intros r Hm; cbn [SpecFloat.iter_pos].
  - assert (H1 : 0 <= shr_m (shr_1 r)) by (rewrite shr_1_m by lia; apply Z.div_pos; lia).
    assert (H2 : 0 <= shr_m (SpecFloat.iter_pos shr_1 p (shr_1 r)))
      by (rewrite IH by lia; apply Z.div_pos; [lia | apply Z.pow_pos_nonneg; lia]).
    rewrite IH, IH, shr_1_m by lia.
    assert (0 < 2 ^ Zpos p) by (apply Z.pow_pos_nonneg; lia).
    rewrite !Z.div_div by lia.
    f_equal. replace (Zpos p~1) with (1 + Zpos p + Zpos p) by lia.
    rewrite (Z.pow_add_r 2 (1 + Zpos p) (Zpos p)), (Z.pow_add_r 2 1 (Zpos p)) by lia.
    change (2 ^ 1) with 2. lia.
  - assert (H2 : 0 <= shr_m (SpecFloat.iter_pos shr_1 p r))
      by (rewrite IH by lia; apply Z.div_pos; [lia | apply Z.pow_pos_nonneg; lia]).
    rewrite IH, IH by lia.
    assert (0 < 2 ^ Zpos p) by (apply Z.pow_pos_nonneg; lia).
    rewrite !Z.div_div by lia.
    f_equal. replace (Zpos p~0) with (Zpos p + Zpos p) by lia.
    rewrite (Z.pow_add_r 2 (Zpos p) (Zpos p)) by lia. lia.
  - rewrite shr_1_m by lia. reflexivity.
Qed.

Lemma shr_record_of_loc_m (m : Z) (l : location) : shr_m (shr_record_of_loc m l) = m.
Proof. destruct l as [|[| |]]; reflexivity. Qed.

(** Rounding a positive mantissa whose exponent is not below the
    smallest one leaves a positive mantissa: nothing is rounded to
    zero. *)
Lemma shr_fexp_positive (m : positive) (e : Z) (l : location) :
  SpecFloat.emin prec emax <= e ->
  0 < shr_m (fst (shr_fexp prec emax (Zpos m) e l))
  /\ SpecFloat.emin prec emax <= snd (shr_fexp prec emax (Zpos m) e l).
Proof.
  intros He. unfold shr_fexp, shr. cbn [Zdigits2].
  pose proof (digits2_bounds m) as [Hlo Hhi].
  set (d := Zpos (digits2_pos m)) in *.
  destruct (fexp prec emax (d + e) - e) as [|p|p] eqn:Hn; cbn [fst snd];
    rewrite ?shr_record_of_loc_m; try (split; lia).
  rewrite shr_iter_m by (rewrite shr_record_of_loc_m; lia).
  rewrite shr_record_of_loc_m.
  unfold fexp in Hn.
  assert (Hp : Zpos p = d - prec) by lia.
  split; [|lia].
  apply Z.div_str_pos. split; [apply Z.pow_pos_nonneg; lia|].
  apply Z.le_trans with (2 ^ (d - 1)); [|exact Hlo].
  apply Z.pow_le_mono_r; [lia|]. rewrite Hp. unfold prec. lia.
Qed.

Lemma round_nearest_even_positive (m : Z) (l : location) :
  0 < m -> 0 < round_nearest_even m l.
Proof.
  intros Hm. destruct l as [|[| |]]; cbn [round_nearest_even]; try lia.
  destruct (Z.even m); lia.
Qed.

Lemma binary_round_aux_signed (s : bool) (m : positive) (e : Z) (l : location) :
  SpecFloat.emin prec emax <= e -> signed s (binary_round_aux prec emax s (Zpos m) e l).
Proof.
  intros He. unfold binary_round_aux.
  destruct (shr_fexp_positive m e l He) as [Hm1 He1].
  destruct (shr_fexp prec emax (Zpos m) e l) as [r1 e1]. cbn [fst snd] in *.
  pose proof (round_nearest_even_positive (shr_m r1) (loc_of_shr_record r1) Hm1) as Hm2.
  destruct (round_nearest_even (shr_m r1) (loc_of_shr_record r1)) as [|m2|m2]; try lia.
  destruct (shr_fexp_positive m2 e1 loc_Exact He1) as [Hm3 He3].
  destruct (shr_fexp prec emax (Zpos m2) e1 loc_Exact) as [r2 e2]. cbn [fst snd] in *.
  destruct (shr_m r2) as [|m3|m3]; try lia.
  destruct (e2 <=? emax - prec); [left; eauto | right; reflexivity].
Qed.

Lemma binary_round_signed (s : bool) (m : positive) (e : Z) :
  SpecFloat.emin prec emax <= e -> signed s (binary_round prec emax s m e).
Proof.
  intros He. unfold binary_round.
  destruct (shl_align m e (fexp prec emax (Zpos (digits2_pos m) + e))) as [mz ez] eqn:Hal.
  apply binary_round_aux_signed.
  unfold shl_align in Hal.
  destruct (fexp prec emax (Zpos (digits2_pos m) + e) - e) eqn:Hd;
    injection Hal as <- <-; try lia.
  unfold fexp. lia.
Qed.

(** Aligning a mantissa to a smaller exponent multiplies it by a power
    of two. *)
Lemma shl_align_value (m : positive) (e e' : Z) :
  e' <= e -> Zpos (fst (shl_align m e e')) = Zpos m * 2 ^ (e - e').
Proof.
  intros Hle. unfold shl_align.
  destruct (e' - e) as [|d|d] eqn:Hd; cbn [fst]; try lia.
  - replace (e - e') with 0 by lia. lia.
  - change (Pos.iter xO m d) with (shift_pos d m).
    rewrite shift_pos_correct. replace (e - e') with (Zpos d) by lia.
    change (Zpower_pos 2 d) with (2 ^ Zpos d). lia.
Qed.

(** A binary64 mantissa has at most 53 bits, and exactly 53 above the
    smallest exponent. *)
Lemma canonical_bounds (m : positive) (e : Z) :
  SpecFloat.bounded prec emax m e = true ->
  SpecFloat.emin prec emax <= e
  /\ Zpos m < 2 ^ 53
  /\ (SpecFloat.emin prec emax < e -> 2 ^ 52 <= Zpos m).
Proof.
  unfold SpecFloat.bounded, canonical_mantissa, fexp. intros Hb.
  apply andb_prop in Hb as [Hc _]. apply Z.eqb_eq in Hc.
  pose proof (digits2_bounds m) as [Hlo Hhi].
  set (d := Zpos (digits2_pos m)) in *.
  unfold SpecFloat.emin, prec, emax in *.
  split; [lia|]. split.
  - apply Z.lt_le_trans with (2 ^ d); [exact Hhi|].
    apply Z.pow_le_mono_r; lia.
  - intros He. replace 52 with (d - 1) by lia. exact Hlo.
Qed.

Lemma aligned_value (s : bool) (m : positive) (e ez : Z) :
  ez <= e -> aligned s m e ez = cond_Zopp s (Zpos m * 2 ^ (e - ez)).
Proof. intros Hle. unfold aligned. rewrite shl_align_value by exact Hle. reflexivity. Qed.

(** With more exponent comes more magnitude. *)
Lemma exponent_orders (m1 m2 : positive) (e1 e2 : Z) :
  SpecFloat.bounded prec emax m1 e1 = true -> SpecFloat.bounded prec emax m2 e2 = true ->
  e1 < e2 -> Zpos m1 < Zpos m2 * 2 ^ (e2 - e1).
Proof.
  intros H1 H2 Hlt.
  destruct (canonical_bounds m1 e1 H1) as [Hmin1 [Hhi1 _]].
  destruct (canonical_bounds m2 e2 H2) as [_ [_ Hlo2]].
  specialize (Hlo2 ltac:(lia)).
  assert (Hpow : 2 ^ 1 <= 2 ^ (e2 - e1)) by (apply Z.pow_le_mono_r; lia).
  change (2 ^ 1) with 2 in Hpow.
  change (2 ^ 53) with (2 * 2 ^ 52) in Hhi1.
  set (k := 2 ^ 52) in *. assert (0 < k) by reflexivity.
  nia.
Qed.

(** The order of two finite binary64 values is the order of their
    mantissas aligned to the smaller exponent. *)
Lemma compare_aligned (s1 s2 : bool) (m1 m2 : positive) (e1 e2 : Z) :
  SpecFloat.bounded prec emax m1 e1 = true -> SpecFloat.bounded prec emax m2 e2 = true ->
  SFcompare (S754_finite s1 m1 e1) (S754_finite s2 m2 e2)
  = Some (aligned s1 m1 e1 (Z.min e1 e2) ?= aligned s2 m2 e2 (Z.min e1 e2)).
Proof.
  intros H1 H2. rewrite !aligned_value by lia.
  set (A := Zpos m1 * 2 ^ (e1 - Z.min e1 e2)).
  set (B := Zpos m2 * 2 ^ (e2 - Z.min e1 e2)).
  assert (P1 : 0 < A)
    by (apply Z.mul_pos_pos; [lia | apply Z.pow_pos_nonneg; lia]).
  assert (P2 : 0 < B)
    by (apply Z.mul_pos_pos; [lia | apply Z.pow_pos_nonneg; lia]).
  assert (Horder :
    (A ?= B)
    = match e1 ?= e2 with
      | Lt => Lt
      | Gt => Gt
      | Eq => Pos.compare_cont Eq m1 m2
      end).
  { unfold A, B. destruct (Z.compare_spec e1 e2) as [Heq|Hlt|Hgt].
    - subst e2. rewrite Z.min_id, Z.sub_diag, !Z.mul_1_r. reflexivity.
    - replace (Z.min e1 e2) with e1 by lia. rewrite Z.sub_diag, Z.mul_1_r.
      apply Z.compare_lt_iff. apply exponent_orders; assumption.
    - replace (Z.min e1 e2) with e2 by lia. rewrite Z.sub_diag, Z.mul_1_r.
      apply Z.compare_gt_iff. apply exponent_orders; assumption. }
  cbn [SFcompare]. f_equal.
  change PosDef.Pos.compare_cont with Pos.compare_cont.
  destruct s1, s2; cbn [cond_Zopp].
  - rewrite Z.compare_opp, (Z.compare_antisym A B), Horder.
    destruct (e1 ?= e2); reflexivity.
  - symmetry. apply Z.compare_lt_iff. lia.
  - symmetry. apply Z.compare_gt_iff. lia.
  - rewrite Horder. reflexivity.
Qed.

(** The sign of a difference.  The difference of two binary64 values
    is a multiple of the smallest positive one, so it is not rounded to
    zero: it is below (above) zero exactly when the first value is
    below (above) the second. *)
Lemma SFsub_sign (x y : spec_float) :
  valid_binary x = true -> valid_binary y = true ->
  x <> S754_nan -> y <> S754_nan ->
  SFltb (S754_zero false) (SFsub prec emax x y) = SFltb y x
  /\ SFltb (SFsub prec emax x y) (S754_zero false) = SFltb x y.
Proof.
  intros Vx Vy Nx Ny.
  destruct x as [sx|sx| |sx mx ex], y as [sy|sy| |sy my ey];
    try contradiction;
    try (destruct sx, sy; split; reflexivity);
    try (destruct sx; split; reflexivity);
    try (destruct sy; split; reflexivity).
  cbn [valid_binary] in Vx, Vy.
  unfold SFltb at 2 4.
  rewrite (compare_aligned sx sy mx my ex ey Vx Vy).
  rewrite (compare_aligned sy sx my mx ey ex Vy Vx).
  rewrite (Z.min_comm ey ex).
  cbn [SFsub].
  set (ez := Z.min ex ey).
  change (cond_Zopp sx (Zpos (fst (shl_align mx ex ez)))) with (aligned sx mx ex ez).
  change (cond_Zopp sy (Zpos (fst (shl_align my ey ez)))) with (aligned sy my ey ez).
  set (X := aligned sx mx ex ez). set (Y := aligned sy my ey ez).
  assert (Hez : SpecFloat.emin prec emax <= ez).
  { destruct (canonical_bounds mx ex Vx) as [? _].
    destruct (canonical_bounds my ey Vy) as [? _]. unfold ez. lia. }
  destruct (X - Y) as [|d|d] eqn:Hd; cbn [binary_normalize].
  - replace Y with X by lia. rewrite Z.compare_refl. split; reflexivity.
  - assert (Hlt : Y < X) by lia.
    rewrite (proj2 (Z.compare_lt_iff Y X) Hlt), (proj2 (Z.compare_gt_iff X Y) Hlt).
    destruct (binary_round_signed false d ez Hez) as [[m [e ->]]| ->]; split; reflexivity.
  - assert (Hlt : X < Y) by lia.
    rewrite (proj2 (Z.compare_lt_iff X Y) Hlt), (proj2 (Z.compare_gt_iff Y X) Hlt).
    destruct (binary_round_signed true d ez Hez) as [[m [e ->]]| ->]; split; reflexivity.
Qed.

Local Open Scope float_scope.

(** [a - b > 0] exactly when [a > b], and [a - b < 0] exactly when
    [a < b], for operands that are not NaN. *)
Lemma sub_positive (a b : float) :
  is_nan a = false -> is_nan b = false -> (0 <? a - b) = (b <? a).
Proof.
  intros Ha Hb. rewrite !ltb_spec, sub_spec.
  exact (proj1 (SFsub_sign _ _ (Prim2SF_valid a) (Prim2SF_valid b)
                  (OrderFacts.not_nan_decode a Ha) (OrderFacts.not_nan_decode b Hb))).
Qed.

Lemma sub_negative (a b : float) :
  is_nan a = false -> is_nan b = false -> (a - b <? 0) = (a <? b).
Proof.
  intros Ha Hb. rewrite !ltb_spec, sub_spec.
  exact (proj2 (SFsub_sign _ _ (Prim2SF_valid a) (Prim2SF_valid b)
                  (OrderFacts.not_nan_decode a Ha) (OrderFacts.not_nan_decode b Hb))).
Qed.

End SubtractionFacts.

(* ================================================================== *)
(** * Sorting numbers                                                  *)
(* ================================================================== *)

Module SortFacts.
Import Js Reference OrderFacts.
Local Open Scope float_scope.

(** Insertion keeps the elements. *)
Lemma sort_insert_permutes {A} (compare : A -> A -> float) (a : A) (l : list A) :
  Permutation (a :: l) (sort_insert compare a l).
Proof.
  induction l as [|b l IH]; cbn [sort_insert]; [reflexivity|].
  destruct (0 <? compare a b); [|reflexivity].
  rewrite perm_swap. apply perm_skip. exact IH.
Qed.

Lemma insertion_permutes {A} (compare : A -> A -> float) (l : list A) :
  Permutation l (fold_right (sort_insert compare) [] l).
Proof.
  induction l as [|a l IH]; cbn [fold_right]; [reflexivity|].
  rewrite <- sort_insert_permutes. apply perm_skip. exact IH.
Qed.

(** The order of binary64 values that are not NaN is a strict weak
    order. *)
Lemma SFltb_trans (a b c : spec_float) :
  SFltb a b = true -> SFltb b c = true -> SFltb a c = true.
Proof.
  unfold SFltb.
  destruct a as [sa|sa| |sa ma ea], b as [sb|sb| |sb mb eb], c as [sc|sc| |sc mc ec];
    cbn; try discriminate; try reflexivity; by_signs; by_order.
Qed.

Lemma ltb_trans (x y z : float) :
  (x <? y) = true -> (y <? z) = true -> (x <? z) = true.
Proof. rewrite !ltb_spec. apply SFltb_trans. Qed.

Lemma ltb_irrefl (x : float) : (x <? x) = false.
Proof.
  destruct (x <? x) eqn:E; [|reflexivity].
  pose proof (TransformFacts.ltb_not_leb x x E) as Hle.
  rewrite ltb_spec in E. rewrite leb_spec in Hle.
  unfold SFltb in E. unfold SFleb in Hle.
  destruct (SFcompare (Prim2SF x) (Prim2SF x)) as [[| |]|]; discriminate.
Qed.

Lemma ltb_asym (x y : float) : (x <? y) = true -> (y <? x) = false.
Proof.
  intros Hxy. destruct (y <? x) eqn:Hyx; [|reflexivity].
  rewrite <- (ltb_irrefl x). symmetry. exact (ltb_trans x y x Hxy Hyx).
Qed.

(** Two values neither of which is below the other are equal as
    numbers. *)
Lemma level_eqb (x y : float) :
  is_nan x = false -> is_nan y = false ->
  (x <? y) = false -> (y <? x) = false -> (x =? y) = true.
Proof.
  intros Hx Hy. apply not_nan_decode in Hx, Hy.
  rewrite !ltb_spec, eqb_spec. unfold SFltb, SFeqb.
  rewrite (TransformFacts.SFcompare_swap (Prim2SF x) (Prim2SF y)).
  destruct (SFcompare_some _ _ Hx Hy) as [[| |] ->]; cbn; congruence.
Qed.

Lemma eqb_ltb (x y z : float) :
  (x =? y) = true -> (x <? z) = (y <? z) /\ (z <? x) = (z <? y).
Proof.
  rewrite eqb_spec, !ltb_spec. intros Heq.
  destruct (EdgeFacts.SFcompare_equal _ _ (Prim2SF z) Heq) as [Hleft Hright].
  unfold SFltb. rewrite Hleft, Hright. auto.
Qed.

(** What the numeric comparator [(a, b) => a - b] says of two values
    that are not NaN. *)
Lemma sortCompare_numeric (a b : float) :
  is_nan a = false -> is_nan b = false ->
  sortCompare (fun a b => a - b) a b
  = if a <? b then Lt else if b <? a then Gt else Eq.
Proof.
  intros Ha Hb. unfold sortCompare.
  rewrite SubtractionFacts.sub_negative, SubtractionFacts.sub_positive by assumption.
  reflexivity.
Qed.

Lemma numeric_consistent_at (a b c : float) :
  is_nan a = false -> is_nan b = false -> is_nan c = false ->
  consistent_at (fun a b => a - b) a b c = true.
Proof.
  intros Ha Hb Hc. unfold consistent_at.
  rewrite !sortCompare_numeric by assumption.
  rewrite (ltb_irrefl a). cbn [same andb].
  destruct (a <? b) eqn:Hab.
  - rewrite (ltb_asym a b Hab).
    destruct (b <? c) eqn:Hbc.
    + rewrite (ltb_trans a b c Hab Hbc). reflexivity.
    + destruct (c <? b); reflexivity.
  - destruct (b <? a) eqn:Hba.
    + destruct (b <? c) eqn:Hbc; [reflexivity|].
      destruct (c <? b) eqn:Hcb; [|reflexivity].
      rewrite (ltb_asym c a (ltb_trans c b a Hcb Hba)).
      rewrite (ltb_trans c b a Hcb Hba). reflexivity.
    + destruct (b <? c) eqn:Hbc; [reflexivity|].
      destruct (c <? b) eqn:Hcb; [reflexivity|].
      destruct (eqb_ltb a b c (level_eqb a b Ha Hb Hab Hba)) as [-> ->].
      rewrite Hbc, Hcb. reflexivity.
Qed.

Lemma numeric_consistent (l : list float) :
  forallb (fun x => negb (is_nan x)) l = true ->
  consistent (fun a b => a - b) l = true.
Proof.
  intros Hl. rewrite forallb_forall in Hl.
  assert (Hnum : forall x, In x l -> is_nan x = false).
  { intros x Hx. specialize (Hl x Hx). destruct (is_nan x); [discriminate | reflexivity]. }
  unfold consistent.
  apply forallb_forall. intros a Ha.
  apply forallb_forall. intros b Hb.
  apply forallb_forall. intros c Hc.
  apply numeric_consistent_at; auto.
Qed.

Lemma sort_insert_ascending (a : float) (l : list float) :
  is_nan a = false -> Forall (fun x => is_nan x = false) l ->
  ascending l -> ascending (sort_insert (fun a b => a - b) a l).
Proof.
  intros Ha Hl Hsorted. unfold ascending in *.
  induction Hsorted as [|b l Hsorted IH Hb]; cbn [sort_insert].
  - constructor; constructor.
  - inversion Hl as [|? ? Hbn Hln]; subst.
    rewrite SubtractionFacts.sub_positive by assumption.
    destruct (order_cases a b Ha Hbn) as [[Hlt Hle]|[[Hlt Hle]|[Hab [Hba [Hle Hge]]]]].
    + rewrite (SortFacts.ltb_asym a b Hlt).
      constructor; [constructor; assumption|].
      constructor; [exact Hle|].
      eapply Forall_impl; [|exact Hb]. intros x Hx. exact (leb_trans a b x Hle Hx).
    + rewrite Hlt. constructor; [apply IH; assumption|].
      apply (Permutation_Forall (sort_insert_permutes _ a l)).
      constructor; assumption.
    + rewrite Hba.
      constructor; [constructor; assumption|].
      constructor; [exact Hle|].
      eapply Forall_impl; [|exact Hb]. intros x Hx. exact (leb_trans a b x Hle Hx).
Qed.

Lemma insertion_ascending (l : list float) :
  Forall (fun x => is_nan x = false) l ->
  ascending (fold_right (sort_insert (fun a b => a - b)) [] l).
Proof.
  induction 1 as [|a l Ha Hl IH]; cbn [fold_right]; [constructor|].
  apply sort_insert_ascending; [exact Ha | | exact IH].
  apply (Permutation_Forall (insertion_permutes _ l)). exact Hl.
Qed.

Section WithHost.
Context `{MathHost}.

(** Whatever the comparator, the sort keeps the elements. *)
Lemma sort_permutes {A} (compare : A -> A -> float) (arr : list A) :
  Permutation arr (sort compare arr).
Proof.
  unfold sort. destruct (consistent compare arr).
  - apply insertion_permutes.
  - apply Array_sort_permutes.
Qed.

(** Numbers none of which is NaN are sorted in ascending order,
    whatever the host. *)
Lemma sort_numeric (l : list float) :
  forallb (fun x => negb (is_nan x)) l = true ->
  sort (fun a b => a - b) l = fold_right (sort_insert (fun a b => a - b)) [] l
  /\ ascending (sort (fun a b => a - b) l).
Proof.
  intros Hl. unfold sort. rewrite (numeric_consistent l Hl).
  split; [reflexivity|]. apply insertion_ascending.
  apply Forall_forall. intros x Hx. rewrite forallb_forall in Hl.
  specialize (Hl x Hx). destruct (is_nan x); [discriminate | reflexivity].
Qed.

End WithHost.

(** Induction over a list two elements at a time. *)
Lemma pair_induction {A} (P : list A -> Prop) :
  P [] -> (forall a, P [a]) -> (forall a b l, P l -> P (a :: b :: l)) ->
  forall l, P l.
Proof.
  intros Hnil Hone Hstep l.
  enough (Hboth : P l /\ forall a, P (a :: l)) by exact (proj1 Hboth).
  induction l as [|b l [IH1 IH2]]; split; auto.
Qed.

(** Pairs taken from an ascending list. *)
Lemma pairUp_In (l : list float) (x1 x2 : float) :
  In (x1, x2) (pairUp l) -> In x1 l /\ In x2 l.
Proof.
  induction l as [|a|a b l IH] using pair_induction; cbn [pairUp]; try contradiction.
  intros [Heq|Hin].
  - injection Heq as <- <-. cbn. auto.
  - destruct (IH Hin). cbn. auto.
Qed.

Lemma pairUp_ordered (l : list float) :
  ascending l ->
  forall x1 x2, In (x1, x2) (pairUp l) -> (x1 <=? x2) = true.
Proof.
  induction l as [|a|a b l IH] using pair_induction; intros Hsorted x1 x2;
    cbn [pairUp]; try contradiction.
  inversion Hsorted as [|? ? Htail Ha]; subst.
  inversion Htail as [|? ? Htail' Hb]; subst.
  intros [Heq|Hin].
  - injection Heq as <- <-. inversion Ha; assumption.
  - exact (IH Htail' x1 x2 Hin).
Qed.

(** On a line swept left to right the ends of the pairs, in the order
    they are appended, ascend. *)
Lemma ends_ascending (y : float) (l : list float) :
  ascending l -> ascending (map px (flat_map (sweep true y) (pairUp l))).
Proof.
  unfold ascending.
  induction l as [|a|a b l IH] using pair_induction; intros Hsorted;
    [constructor | constructor |].
  inversion Hsorted as [|? ? Htail Ha]; subst.
  inversion Htail as [|? ? Htail' Hb]; subst.
  assert (Hsub : forall x, In x (map px (flat_map (sweep true y) (pairUp l))) -> In x l).
  { intros x Hx. apply in_map_iff in Hx as [p [<- Hp]].
    apply in_flat_map in Hp as [[x1 x2] [Hpair Hp]].
    destruct (pairUp_In l x1 x2 Hpair).
    cbn in Hp. destruct Hp as [<-|[<-|[]]]; assumption. }
  cbn [pairUp flat_map sweep app map px].
  constructor; [constructor|].
  - exact (IH Htail').
  - apply Forall_forall. intros x Hx. rewrite Forall_forall in Hb. auto.
  - constructor; [inversion Ha; assumption|].
    apply Forall_forall. intros x Hx.
    inversion Ha as [|? ? _ Ha']; subst. rewrite Forall_forall in Ha'. auto.
Qed.

End SortFacts.

(* ================================================================== *)
(** * One scan line, and statistics of a generated route               *)
(* ================================================================== *)

Module CompositionFacts.
Import Js Route Spec Reference.
Local Open Scope float_scope.

Section WithHost.
Context `{MathHost}.

(** X7: one round of the scan loop, on a line none of whose
    intersections is NaN.  While the scan line is not above the box, a
    round sorts the intersections of that line by X in ascending order
    (the same values, each as many times), takes them two by two (an
    unpaired last one is dropped) and appends the two ends of each
    pair, the smaller X first on even lines and the larger X first on
    odd ones, so that the waypoints of an even line run from left to
    right; then it moves on by the spacing. *)
Theorem scan_line (fuel : nat) (rotatedPolygon : list Planar)
  (finalSpacing maxY_ currentY : float) (lineIndex : nat) (waypoints : list Planar) :
  (currentY <=? maxY_) = true ->
  let crossings := flat_map (crossing currentY) (edges rotatedPolygon) in
  forallb (fun x => negb (is_nan x)) crossings = true ->
  let sorted := sort (fun a b => a - b) crossings in
  let added := flat_map (sweep (Nat.even lineIndex) currentY) (pairUp sorted) in
  scanLines (S fuel) rotatedPolygon finalSpacing maxY_ currentY lineIndex waypoints
  = scanLines fuel rotatedPolygon finalSpacing maxY_
      (currentY + finalSpacing) (S lineIndex) (waypoints ++ added)
  /\ Permutation crossings sorted
  /\ ascending sorted
  /\ (forall x1 x2, In (x1, x2) (pairUp sorted) -> (x1 <=? x2) = true)
  /\ (Nat.even lineIndex = true -> ascending (map px added)).
Proof.
  intros Hin crossings Hnum sorted added.
  destruct (SortFacts.sort_numeric crossings Hnum) as [_ Hsorted].
  fold sorted in Hsorted.
  split; [|split; [apply SortFacts.sort_permutes|split; [exact Hsorted|split]]].
  - cbn [scanLines]. rewrite Hin.
    rewrite ScanFacts.findIntersections_eq. cbn [bind].
    rewrite ScanFacts.emitPairs_eq.
    replace (lineIndex mod 2 =? 0)%nat with (Nat.even lineIndex); [reflexivity|].
    destruct (Nat.even lineIndex) eqn:E.
    + apply Nat.even_spec in E as [k ->]. symmetry. apply Nat.eqb_eq.
      rewrite Nat.mul_comm. apply Nat.Div0.mod_mul.
    + symmetry. apply Nat.eqb_neq. intros Hmod.
      apply Nat.Div0.mod_divides in Hmod as [k ->].
      rewrite Nat.even_mul in E. discriminate.
  - apply SortFacts.pairUp_ordered. exact Hsorted.
  - intros Heven. unfold added. rewrite Heven.
    apply SortFacts.ends_ascending. exact Hsorted.
Qed.

Lemma items_are_waypoints (fuel : nat) (boundaryPoints : list Geo)
  (options : RouteOptions) (items : list RouteItem) :
  snd (generatePolygonRoute fuel boundaryPoints options) = Return items ->
  forall i item, nth_error items i = Some item ->
    exists w, item = WaypointItem w
              /\ speed w = Some (default 5 (opt_speed options)).
Proof.
  intros Hret.
  destruct (Nat.lt_ge_cases (List.length boundaryPoints) 3) as [Hshort|Hlong].
  - rewrite GeneratorFacts.generatePolygonRoute_short in Hret by exact Hshort.
    injection Hret as <-. intros [|i] item Hnth; discriminate.
  - destruct (GeneratorFacts.generatePolygonRoute_long fuel boundaryPoints options Hlong)
      as [origin [polygon [finalSpacing [_ Hrun]]]].
    rewrite Hrun in Hret. cbn [snd] in Hret.
    intros i item Hnth.
    destruct (GeneratorFacts.scanRoute_items _ _ _ _ _ _ _ _ _ Hret i item Hnth)
      as [p Hitem].
    eexists. split; [exact Hitem | reflexivity].
Qed.

Lemma route_length (fuel : nat) (boundaryPoints : list Geo)
  (options : RouteOptions) (items : list RouteItem) :
  snd (generatePolygonRoute fuel boundaryPoints options) = Return items ->
  List.length items <> 1%nat.
Proof.
  intros Hret.
  destruct (Nat.lt_ge_cases (List.length boundaryPoints) 3) as [Hshort|Hlong].
  - rewrite GeneratorFacts.generatePolygonRoute_short in Hret by exact Hshort.
    injection Hret as <-. discriminate.
  - destruct (GeneratorFacts.generatePolygonRoute_long fuel boundaryPoints options Hlong)
      as [origin [polygon [finalSpacing [_ Hrun]]]].
    rewrite Hrun in Hret. cbn [snd] in Hret.
    match type of Hret with
    | scanRoute ?f ?o ?p ?a ?s ?h ?v ?b = _ =>
        pose proof (ScanFacts.scanRoute_outcome f o p a s h v b) as Hout
    end.
    rewrite Hret in Hout. apply Hout.
Qed.

(** X10: the statistics of a generated route, as the caller computes
    them.  For every non-empty route that [generatePolygonRoute]
    returns, [calculateRouteStats] counts every waypoint
    ([photoCount] is the length of the route) and divides the distance
    by the configured speed (5 when unset), or by 5 when that speed is
    zero or NaN. *)
Theorem stats_of_generated_route (fuel : nat) (boundaryPoints : list Geo)
  (options : RouteOptions) (items : list RouteItem) :
  snd (generatePolygonRoute fuel boundaryPoints options) = Return items ->
  items <> [] ->
  let configured := default 5 (opt_speed options) in
  exists stats,
    calculateRouteStats (waypointsOf items) = Return stats
    /\ photoCount stats = List.length items
    /\ flightTime stats
       = Math_ceil (pathLength (waypointsOf items)
                    / (if truthy configured then configured else 5)).
Proof.
  intros Hret Hne. cbn zeta.
  pose proof (items_are_waypoints fuel boundaryPoints options items Hret) as Hall.
  pose proof (route_length fuel boundaryPoints options items Hret) as Hlen.
  assert (Hcount : List.length (waypointsOf items) = List.length items).
  { apply EdgeFacts.waypointsOf_length. intros i item Hnth.
    destruct (Hall i item Hnth) as [w [Hw _]]. eauto. }
  rewrite StatsFacts.calculateRouteStats_eq. rewrite Hcount.
  destruct (Nat.ltb_spec (List.length items) 2) as [Hshort|_].
  { destruct items as [|a [|b items]]; cbn [List.length] in *; try lia; contradiction. }
  eexists. split; [reflexivity|]. split; [reflexivity|].
  cbn [flightTime]. f_equal. f_equal.
  destruct items as [|first items]; [contradiction|].
  destruct (Hall 0%nat first eq_refl) as [w [-> Hspeed]].
  unfold avgSpeed, at_index. cbn [waypointsOf flat_map app nth_error].
  rewrite Hspeed. reflexivity.
Qed.

End WithHost.

Lemma scan_line_witness :
  let sorted :=
    @sort SeriesHost.host _ (fun a b => a - b)
      (flat_map (crossing 2) (edges notchedSquare)) in
  @scanLines SeriesHost.host 1 notchedSquare 4 4 2 0 []
  = @scanLines SeriesHost.host 0 notchedSquare 4 4 (2 + 4) 1
      ([] ++ flat_map (sweep (Nat.even 0) 2) (pairUp sorted))
  /\ ascending sorted.
Proof.
  destruct (@scan_line SeriesHost.host 0 notchedSquare 4 4 2 0 [])
    as [Hrun [_ [Hsorted _]]]; [vm_compute; reflexivity..|].
  split; [exact Hrun | exact Hsorted].
Defined.

Lemma stats_of_generated_route_witness :
  exists items stats,
    snd (@generatePolygonRoute SeriesHost.host 100 squareBoundary squareOptions)
    = Return items
    /\ calculateRouteStats (waypointsOf items) = Return stats
    /\ photoCount stats = List.length items.
Proof.
  edestruct (@stats_of_generated_route SeriesHost.host 100 squareBoundary squareOptions)
    as [stats [Hrun [Hcount _]]]; [vm_compute; reflexivity | discriminate |].
  eexists. exists stats. split; [vm_compute; reflexivity|]. split; assumption.
Defined.

End CompositionFacts.
